(** * A shallow embedding of [server.js] (the yt-dlp download front end)

    The file models the second program of [src/server.js]: the Express
    application with the [/api/info] and [/api/download] handlers, the
    format pipeline of the info handler, and the rate limiter that guards
    the [/api/] namespace.

    Conventions of the embedding

    - A JavaScript string is the list of its UTF-16 code units ([jstring]).
    - A JavaScript value read from the JSON that yt-dlp prints is one of
      [undefined], [null], a boolean, a number or a string.  A number is a
      double; the model has the integer-valued doubles, the infinities and
      NaN, and no value for a number with a fraction.
    - A handler is a computation in a writer monad with exceptions: it emits
      the calls it makes on the collaborator ([getVideoInfo], [execStream])
      and on the response object ([status], [header], [json], [send]) in
      program order, and it may throw.  What is not in [server.js] is a
      parameter of the handlers: what the tool answers, which header values
      Node accepts, and the errors the stream reports.
    - A query parameter is absent or a string. *)

From Stdlib Require Import ZArith NArith List String Ascii Lia.
From Stdlib Require Import Sorting.Sorted Sorting.Permutation DecimalString.
From Stdlib Require DecimalFacts DecimalPos.
From stdpp Require Import base decidable option list gmap.

Open Scope Z_scope.

(** ** JavaScript strings and values *)

Module JS.

Definition char16 := N.
Definition jstring := list char16.

(** A string literal of the source, as code units. *)
Definition lit (s : string) : jstring :=
  List.map N_of_ascii (list_ascii_of_string s).

Inductive value :=
| VUndefined
| VNull
| VBool (b : bool)
| VNum (n : Z)
| VStr (s : jstring).

#[global] Instance value_eq_dec : EqDecision value.
Proof. solve_decision. Defined.

(** [a === b] *)
Definition strict_eq (a b : value) : bool := bool_decide (a = b).
(** [a !== b] *)
Definition strict_ne (a b : value) : bool := negb (strict_eq a b).

(** ToBoolean *)
Definition truthy (v : value) : bool :=
  match v with
  | VUndefined | VNull => false
  | VBool b => b
  | VNum n => negb (n =? 0)
  | VStr s => match s with [] => false | _ => true end
  end.

(** *** Numbers

    [Finite z] is the double whose value is the integer [z], so [z] is a
    value [to_double] returns. *)
Inductive number :=
| NaN
| Finite (z : Z)
| Infinity (negative : bool).

(** The double nearest to the integer [n >= 0], ties to even; [None] when
    the rounding leaves the range of the finite doubles. *)
Definition nearest_double (n : Z) : option Z :=
  let e := Z.max 0 (Z.log2 n - 52) in
  let q := Z.shiftr n e in
  let r := n - Z.shiftl q e in
  let q' := if 2 * r <? 2 ^ e then q
            else if 2 ^ e <? 2 * r then q + 1
            else if Z.even q then q else q + 1 in
  let v := Z.shiftl q' e in
  if v <? 2 ^ 1024 then Some v else None.

(** The number value of a mathematical integer. *)
Definition to_double (z : Z) : number :=
  match nearest_double (Z.abs z) with
  | Some v => Finite (Z.sgn z * v)
  | None => Infinity (z <? 0)
  end.

Arguments to_double : simpl never.

(** The decimal numeral of an integer. *)
Definition decimal (n : Z) : jstring :=
  lit (NilZero.string_of_int (Z.to_int n)).

(** Number::toString for a double [x >= 2^53]: the integer with the fewest
    significant digits that still rounds to [x] (the closest one, and the
    even one of two), printed in full up to 21 digits and in exponent form
    beyond. *)
Definition shortest_at (x scale : Z) : option Z :=
  let lo := (x / scale) * scale in
  let hi := lo + scale in
  let rounds_to_x v :=
    match nearest_double v with
    | Some y => y =? x
    | None => false
    end in
  match rounds_to_x lo, rounds_to_x hi with
  | true, true =>
      Some (if x - lo <? hi - x then lo
            else if hi - x <? x - lo then hi
            else if Z.even (x / scale) then lo else hi)
  | true, false => Some lo
  | false, true => Some hi
  | false, false => None
  end.

Fixpoint first_some {A B} (f : A -> option B) (l : list A) : option B :=
  match l with
  | [] => None
  | a :: l' => match f a with Some b => Some b | None => first_some f l' end
  end.

Definition shortest (x : Z) : Z :=
  let n := length (decimal x) in
  let scales := List.map (fun i => 10 ^ Z.of_nat i) (rev (seq 0 n)) in
  match first_some (shortest_at x) scales with
  | Some v => v
  | None => x
  end.

Fixpoint drop_zeros (s : jstring) : jstring :=
  match s with
  | 48%N :: s' => drop_zeros s'
  | _ => s
  end.

Definition large_to_string (x : Z) : jstring :=
  let digits := decimal (shortest x) in
  let n := length digits in
  if (n <=? 21)%nat then digits
  else
    match rev (drop_zeros (rev digits)) with
    | [] => digits
    | d :: ds =>
        d :: (match ds with [] => [] | _ => lit "." ++ ds end)
          ++ lit "e+" ++ decimal (Z.of_nat n - 1)
    end.

(** Number::toString.  Below 2^53 every integer is a double and prints as
    its decimal numeral. *)
Definition number_to_string (n : number) : jstring :=
  match n with
  | NaN => lit "NaN"
  | Infinity false => lit "Infinity"
  | Infinity true => lit "-Infinity"
  | Finite z =>
      if Z.abs z <? 2 ^ 53 then decimal z
      else if z <? 0 then lit "-" ++ large_to_string (- z)
      else large_to_string z
  end.

(** ToString.  [VNum n] is the number value of [n]. *)
Definition ToString (v : value) : jstring :=
  match v with
  | VUndefined => lit "undefined"
  | VNull => lit "null"
  | VBool true => lit "true"
  | VBool false => lit "false"
  | VNum n =>
      if Z.abs n <? 2 ^ 53 then decimal n else number_to_string (to_double n)
  | VStr s => s
  end.

(** [a || b] *)
Definition logical_or (a b : value) : value :=
  if truthy a then a else b.

(** [a + 'str']: one operand is a string, so the other is converted with
    ToString and the two are concatenated. *)
Definition add_str (a : value) (s : jstring) : value :=
  VStr (ToString a ++ s).

(** WhiteSpace and LineTerminator code units: the class [\s] of a regular
    expression and the characters [parseInt] skips. *)
Definition is_white_space (c : char16) : bool :=
  match c with
  | 9 | 10 | 11 | 12 | 13 | 32 | 160 | 5760 | 8232 | 8233 | 8239 | 8287
  | 12288 | 65279 => true
  | _ => (8192 <=? c)%N && (c <=? 8202)%N
  end%N.

(** The class [\w] (no [u] or [i] flag): [A-Za-z0-9_]. *)
Definition is_word_char (c : char16) : bool :=
  ((97 <=? c) && (c <=? 122) || (65 <=? c) && (c <=? 90)
   || (48 <=? c) && (c <=? 57) || (c =? 95))%N.

(** *** parseInt(string) with no radix argument *)

Fixpoint trim_start (s : jstring) : jstring :=
  match s with
  | c :: s' => if is_white_space c then trim_start s' else s
  | [] => []
  end.

Definition digit_value (c : char16) : option Z :=
  if ((48 <=? c) && (c <=? 57))%N then Some (Z.of_N (c - 48))
  else if ((97 <=? c) && (c <=? 122))%N then Some (Z.of_N (c - 97 + 10))
  else if ((65 <=? c) && (c <=? 90))%N then Some (Z.of_N (c - 65 + 10))
  else None.

Definition radix_digit (R : Z) (c : char16) : option Z :=
  match digit_value c with
  | Some d => if d <? R then Some d else None
  | None => None
  end.

(** The longest prefix of radix-[R] digits. *)
Fixpoint radix_prefix (R : Z) (s : jstring) : list Z :=
  match s with
  | c :: s' =>
      match radix_digit R c with
      | Some d => d :: radix_prefix R s'
      | None => []
      end
  | [] => []
  end.

Definition math_int (R : Z) (ds : list Z) : Z :=
  fold_left (fun acc d => acc * R + d) ds 0.

(** [mathInt] is rounded to the number value: a double. *)
Definition parseInt (v : value) : number :=
  let S0 := trim_start (ToString v) in
  let sign := match S0 with 45%N :: _ => -1 | _ => 1 end in
  let S1 := match S0 with (43 | 45)%N :: r => r | _ => S0 end in
  let '(R, S2) :=
    match S1 with
    | 48%N :: (120 | 88)%N :: r => (16, r)
    | _ => (10, S1)
    end in
  match radix_prefix R S2 with
  | [] => NaN
  | ds => to_double (sign * math_int R ds)
  end.

(** [n || 0] for a number [n]: NaN and zero are falsy. *)
Definition num_or_zero (n : number) : number :=
  match n with
  | NaN => Finite 0
  | Finite z => if z =? 0 then Finite 0 else Finite z
  | Infinity s => Infinity s
  end.

(** [x - y] on numbers. *)
Definition number_sub (x y : number) : number :=
  match x, y with
  | NaN, _ | _, NaN => NaN
  | Finite a, Finite b => to_double (a - b)
  | Infinity s, Finite _ => Infinity s
  | Finite _, Infinity s => Infinity (negb s)
  | Infinity s, Infinity s' => if Bool.eqb s s' then NaN else Infinity s
  end.

(** The place of a number in the order of the numbers, as an integer: a
    finite double is below 2^1024 in magnitude, which stands for the
    infinities.  NaN has the place of zero: it is what [parseInt(x) || 0]
    makes of it, and what the sort makes of a comparator result that is
    NaN. *)
Definition rank (n : number) : Z :=
  match n with
  | NaN => 0
  | Finite z => z
  | Infinity false => 2 ^ 1024
  | Infinity true => - 2 ^ 1024
  end.

(** [s.replace(/[...]/g, by_)] for a regular expression that is a single
    character class [re]: every code unit the class matches is replaced. *)
Fixpoint replace_global (re : char16 -> bool) (by_ : jstring) (s : jstring)
  : jstring :=
  match s with
  | c :: s' =>
      if re c then by_ ++ replace_global re by_ s'
      else c :: replace_global re by_ s'
  | [] => []
  end.

End JS.
Import JS.

(** ** Array.prototype methods used by the handlers *)

Module Array.
Section Methods.
Context {A : Type}.

(** [a.filter(v => p(v))] *)
Definition filter (p : A -> bool) (a : list A) : list A := List.filter p a.

(** [a.findIndex(p)]: the first index whose element satisfies [p], or -1. *)
Fixpoint findIndex_from (p : A -> bool) (i : Z) (l : list A) : Z :=
  match l with
  | [] => -1
  | x :: l' => if p x then i else findIndex_from p (i + 1) l'
  end.
Definition findIndex (p : A -> bool) (a : list A) : Z := findIndex_from p 0 a.

(** [a.find(p)]: the first element that satisfies [p], or undefined. *)
Fixpoint find (p : A -> bool) (a : list A) : option A :=
  match a with
  | [] => None
  | x :: a' => if p x then Some x else find p a'
  end.

(** [a.filter((v, i, a) => p(v, i, a))] *)
Fixpoint filter_from (p : A -> Z -> list A -> bool) (a : list A)
         (i : Z) (l : list A) : list A :=
  match l with
  | [] => []
  | v :: l' =>
      if p v i a then v :: filter_from p a (i + 1) l'
      else filter_from p a (i + 1) l'
  end.
Definition filter3 (p : A -> Z -> list A -> bool) (a : list A) : list A :=
  filter_from p a 0 a.

(** [a.sort(cmp)].  ECMAScript requires the sort to be stable, so for a
    consistent comparator the result is determined; it is computed here
    by a stable insertion sort. *)
Fixpoint insert (cmp : A -> A -> Z) (x : A) (l : list A) : list A :=
  match l with
  | [] => [x]
  | y :: l' => if cmp x y <=? 0 then x :: l else y :: insert cmp x l'
  end.
Definition sort (cmp : A -> A -> Z) (a : list A) : list A :=
  foldr (insert cmp) [] a.

(** [a.slice(0, n)] *)
Definition slice0 (n : nat) (a : list A) : list A := take n a.

(** [a.unshift(x)] *)
Definition unshift (x : A) (a : list A) : list A := x :: a.
End Methods.
End Array.

(** The comparator [(a, b) => key(b) - key(a)], and the order it sorts by. *)
Definition desc {A} (key : A -> Z) (x y : A) : Z := key y - key x.
Definition ge_key {A} (key : A -> Z) (x y : A) : Prop := key y <= key x.

(** ** Data of the server *)

(** One element of [metadata.formats], with the fields the handlers read. *)
Record raw_format := RawFormat {
  raw_format_id : value;
  raw_ext : value;
  raw_resolution : value;
  raw_format_note : value;
  raw_height : value;
  raw_vcodec : value;
  raw_filesize : value;
  raw_filesize_approx : value
}.

(** One element of the [formats] array of the [/api/info] answer. *)
Record format := Format {
  format_id : value;
  extension : value;
  resolution : value;
  quality_label : value
}.

#[global] Instance format_eq_dec : EqDecision format.
Proof. solve_decision. Defined.

(** The object [getVideoInfo] resolves to; [formats] is [None] when the
    property is undefined. *)
Record metadata := Metadata {
  title : value;
  thumbnail : value;
  uploader : value;
  duration_string : value;
  formats : option (list raw_format)
}.

(** ** The format pipeline of [/api/info] (lines 86 to 104) *)

(** [f => f.vcodec !== 'none' && f.resolution !== 'audio only'] *)
Definition is_video (f : raw_format) : bool :=
  strict_ne (raw_vcodec f) (VStr (lit "none"))
  && strict_ne (raw_resolution f) (VStr (lit "audio only")).

(** The object literal of the [map] callback. *)
Definition present (f : raw_format) : format :=
  {| format_id := raw_format_id f;
     extension := raw_ext f;
     resolution := raw_resolution f;
     quality_label :=
       logical_or (raw_format_note f) (add_str (raw_height f) (lit "p")) |}.

(** [t => t.resolution === v.resolution && t.extension === v.extension] *)
Definition same_pair (v t : format) : bool :=
  strict_eq (resolution t) (resolution v)
  && strict_eq (extension t) (extension v).

(** [(v, i, a) => a.findIndex(...) === i] *)
Definition first_of_pair (v : format) (i : Z) (a : list format) : bool :=
  Array.findIndex (same_pair v) a =? i.

(** [parseInt(x.resolution) || 0] *)
Definition resolution_number (x : format) : number :=
  num_or_zero (parseInt (resolution x)).

(** The place of [parseInt(x.resolution) || 0] among the numbers. *)
Definition resolution_key (x : format) : Z := rank (resolution_number x).

(** [(a, b) => (parseInt(b.resolution) || 0) - (parseInt(a.resolution) || 0)];
    the sort reads the number the comparator returns by its sign, NaN as 0. *)
Definition by_resolution_desc (a b : format) : Z :=
  rank (number_sub (resolution_number b) (resolution_number a)).

Definition mp3_option : format :=
  {| format_id := VStr (lit "mp3");
     extension := VStr (lit "mp3");
     resolution := VStr (lit "Audio Only");
     quality_label := VStr (lit "MP3 Extraction") |}.

(** The stages of the chain, named so that statements can refer to them. *)
Definition video_formats (raw : list raw_format) : list raw_format :=
  Array.filter is_video raw.

Definition deduplicated (raw : list raw_format) : list format :=
  Array.filter3 first_of_pair (List.map present (video_formats raw)).

Definition video_list (raw : list raw_format) : list format :=
  Array.slice0 8 (Array.sort by_resolution_desc (deduplicated raw)).

(** [(metadata.formats || [])...slice(0, 8)] followed by [formats.unshift]. *)
Definition select_formats (fs : option (list raw_format)) : list format :=
  let raw := match fs with Some a => a | None => [] end in
  Array.unshift mp3_option (video_list raw).

(** ** Effects of a handler *)

Inductive body :=
| JsonError (msg : jstring)
| JsonInfo (title thumbnail uploader duration : value) (formats : list format)
| Text (s : jstring).

(** What a handler does to the outside, in program order.  [Header name v]
    is the call [res.header(name, v)]: it sets the header when Node accepts
    the value, and throws otherwise. *)
Inductive effect :=
| GetVideoInfo (args : list jstring)
| ExecStream (args : list jstring)
| Status (code : Z)
| Header (name : jstring) (v : value)
| Respond (b : body)
| PipeToResponse
| ConsoleLog (msg : jstring)
| ConsoleError (msg : jstring).

#[global] Instance body_eq_dec : EqDecision body.
Proof. solve_decision. Defined.

#[global] Instance effect_eq_dec : EqDecision effect.
Proof. solve_decision. Defined.

(** The emitted effects, and the value or the fact that something was
    thrown. *)
Definition M (A : Type) : Type := list effect * option A.

Definition ret {A} (a : A) : M A := ([], Some a).
Definition throw {A} : M A := ([], None).
Definition emit (e : effect) : M unit := ([e], Some tt).
Definition bind {A B} (m : M A) (k : A -> M B) : M B :=
  match m with
  | (w, Some a) => let '(w', r) := k a in (w ++ w', r)
  | (w, None) => (w, None)
  end.
(** [try { m } catch (err) { h }] *)
Definition try_catch {A} (m : M A) (h : M A) : M A :=
  match m with
  | (w, Some a) => (w, Some a)
  | (w, None) => let '(w', r) := h in (w ++ w', r)
  end.

#[global] Instance M_ret : MRet M := @ret.
#[global] Instance M_bind : MBind M := fun A B k m => bind m k.

Definition trace {A} (m : M A) : list effect := fst m.

(** ** The handlers *)

Definition USER_AGENT : jstring :=
  lit "Mozilla/5.0 (Windows NT 10.0; Win64; x64) AppleWebKit/537.36 (KHTML, like Gecko) Chrome/120.0.0.0 Safari/537.36".

(** [req.query]: a parameter is absent or a string. *)
Record query := Query {
  q_url : option jstring;
  q_format : option jstring
}.

(** [!x] and [x || d] for a query parameter. *)
Definition param_truthy (x : option jstring) : bool :=
  match x with
  | Some (_ :: _) => true
  | _ => false
  end.
Definition param_or (x : option jstring) (d : jstring) : jstring :=
  match x with
  | Some (c :: s) => c :: s
  | _ => d
  end.

(** The double quote of the template literal of line 138. *)
Definition dquote : jstring := [34%N].

Section Handlers.

(** The collaborator: what [ytDlpWrap.getVideoInfo(args)] resolves to, or
    [None] when the promise is rejected. *)
Variable tool : list jstring -> option metadata.

(** Node: whether [res.header(name, v)] accepts the value; when it does not
    the call throws and sets nothing. *)
Variable header_accepts : jstring -> value -> bool.

(** The ['error'] events of the stream that [execStream(args)] returns, in
    the order in which they fire, all after the handler has returned; for
    each one, whether the piped stream has written to the response by
    then. *)
Variable stream_errors : list jstring -> list bool.

Definition getVideoInfo (args : list jstring) : M metadata :=
  emit (GetVideoInfo args) ;;
  match tool args with
  | Some md => ret md
  | None => throw
  end.

Definition info_args (videoUrl : jstring) : list jstring :=
  [videoUrl; lit "--user-agent"; USER_AGENT; lit "--no-check-certificates"].

(** [app.get('/api/info', ...)] *)
Definition api_info (q : query) : M unit :=
  if negb (param_truthy (q_url q)) then
    emit (Status 400) ;; emit (Respond (JsonError (lit "URL is required")))
  else
    let videoUrl := param_or (q_url q) [] in
    try_catch
      (md ← getVideoInfo (info_args videoUrl);
       let formats := select_formats (formats md) in
       emit (Respond (JsonInfo (title md) (thumbnail md) (uploader md)
                               (duration_string md) formats)))
      (emit (ConsoleError (lit "Error fetching info:")) ;;
       emit (Status 500) ;;
       emit (Respond (JsonError (lit "Failed to fetch video information.")))).

(** [/[^\w\s-]/]: the code units the regular expression matches. *)
Definition unsafe_char (c : char16) : bool :=
  negb (is_word_char c || is_white_space c || (c =? 45)%N).

(** [`${title.replace(/[^\w\s-]/g, '')}.${isMp3 ? 'mp3' : 'mp4'}`] *)
Definition filename_of (title : jstring) (isMp3 : bool) : jstring :=
  replace_global unsafe_char [] title ++ lit "."
  ++ (if isMp3 then lit "mp3" else lit "mp4").

(** The value of [args] after lines 141 to 153. *)
Definition download_args (videoUrl formatId : jstring) : list jstring :=
  let isMp3 := bool_decide (formatId = lit "mp3") in
  let args :=
    [videoUrl; lit "--user-agent"; USER_AGENT; lit "--no-check-certificates";
     lit "--concurrent-fragments"; lit "5"; lit "--buffer-size"; lit "16K"] in
  if isMp3 then
    args ++ [lit "-x"; lit "--audio-format"; lit "mp3"; lit "--audio-quality";
             lit "0"]
  else
    args ++ [lit "-f";
             if bool_decide (formatId = lit "best")
             then lit "bestvideo+bestaudio/best"
             else formatId ++ lit "+bestaudio/best"].

(** [res.header(name, v)] *)
Definition res_header (name : jstring) (v : value) : M unit :=
  emit (Header name v) ;;
  if header_accepts name v then ret tt else throw.

(** Lines 155 to 158. *)
Definition content_length_hint (fs : list raw_format) (formatId : jstring)
  : M unit :=
  let targetFormat :=
    Array.find (fun f => strict_eq (raw_format_id f) (VStr formatId)) fs in
  match targetFormat with
  | Some t =>
      if truthy (logical_or (raw_filesize t) (raw_filesize_approx t)) then
        res_header (lit "Content-Length")
                   (logical_or (raw_filesize t) (raw_filesize_approx t))
      else ret tt
  | None => ret tt
  end.

(** The listener of lines 162 to 165, run on the error events of the
    stream in turn.  An event comes with whether the pipe has written to the
    response by then; [sent] is [res.headersSent] as the earlier events left
    it. *)
Fixpoint on_error (sent : bool) (events : list bool) : M unit :=
  match events with
  | [] => ret tt
  | written :: events' =>
      emit (ConsoleError (lit "Download error:")) ;;
      if negb (sent || written) then
        emit (Status 500) ;; emit (Respond (Text (lit "Download failed"))) ;;
        on_error true events'
      else on_error (sent || written) events'
  end.

(** [app.get('/api/download', ...)].  The [try] block ends with the call of
    [pipe]; the listener of the stream runs later, outside of it. *)
Definition api_download (q : query) : M unit :=
  let formatId := param_or (q_format q) (lit "best") in
  if negb (param_truthy (q_url q)) then
    emit (Status 400) ;; emit (Respond (Text (lit "URL is required")))
  else
    let videoUrl := param_or (q_url q) [] in
    stream ← try_catch
      (emit (ConsoleLog (lit "Preparing download for: " ++ videoUrl
                         ++ lit " [Format: " ++ formatId ++ lit "]")) ;;
       md ← getVideoInfo (info_args videoUrl);
       let isMp3 := bool_decide (formatId = lit "mp3") in
       filename ← match title md with
                   | VStr t => ret (filename_of t isMp3)
                   | _ => throw
                   end;
       res_header (lit "Content-Disposition")
         (VStr (lit "attachment; filename=" ++ dquote ++ filename
                ++ dquote)) ;;
       let args := download_args videoUrl formatId in
       fs ← match formats md with
             | Some fs => ret fs
             | None => throw
             end;
       content_length_hint fs formatId ;;
       emit (ExecStream args) ;;
       emit PipeToResponse ;;
       ret (Some args))
      (emit (ConsoleError (lit "Preparation error:")) ;;
       emit (Status 500) ;;
       emit (Respond (Text (lit "Failed to prepare download"))) ;;
       ret None);
    match stream with
    | Some args => on_error false (stream_errors args)
    | None => ret tt
    end.

End Handlers.

(** The (resolution, extension) pair the deduplication step compares. *)
Definition pair_of (x : format) : value * value := (resolution x, extension x).

(** The code units [/[^\w\s-]/] leaves in place. *)
Definition safe_char (c : char16) : bool :=
  is_word_char c || is_white_space c || (c =? 45)%N.

(** The flags pushed for an MP3 download (line 150). *)
Definition extract_audio_flags : list jstring :=
  [lit "-x"; lit "--audio-format"; lit "mp3"; lit "--audio-quality"; lit "0"].

(** The arguments every download starts with (lines 141 to 147). *)
Definition common_args (videoUrl : jstring) : list jstring :=
  [videoUrl; lit "--user-agent"; USER_AGENT; lit "--no-check-certificates";
   lit "--concurrent-fragments"; lit "5"; lit "--buffer-size"; lit "16K"].

(** The value of the [Content-Disposition] header (line 138). *)
Definition disposition (title formatId : jstring) : value :=
  VStr (lit "attachment; filename=" ++ dquote
        ++ filename_of title (bool_decide (formatId = lit "mp3")) ++ dquote).

(** A handler sets a header when it calls [res.header] with it and Node
    accepts the value. *)
Definition header_set (accepts : jstring -> value -> bool) (tr : list effect)
  (name : jstring) (v : value) : Prop :=
  Header name v ∈ tr /\ accepts name v = true.

(** What the [catch] of the download handler does (lines 168 to 171). *)
Definition preparation_failed : list effect :=
  [ConsoleError (lit "Preparation error:"); Status 500;
   Respond (Text (lit "Failed to prepare download"))].

(** Classifiers of effects, to speak about what a trace contains. *)
Definition is_exec_stream (e : effect) : bool :=
  match e with
  | ExecStream _ => true
  | _ => false
  end.
Definition is_tool_call (e : effect) : bool :=
  match e with
  | GetVideoInfo _ | ExecStream _ => true
  | _ => false
  end.

(** ** The rate limiter (lines 26 to 35) *)

Module Limiter.

(** The options of the call [rateLimit({...})]. *)
Definition windowMs : Z := 1 * 60 * 1000.
Definition max : Z := 10.
Definition message : body :=
  JsonError (lit "Too many requests, please try again after a minute.").

(** A request as the limiter sees it: arrival time in milliseconds, client
    address and path. *)
Record request := Request {
  r_time : Z;
  r_ip : jstring;
  r_path : jstring
}.

(** Per client address: the hits of the current window and the time at which
    the window ends. *)
Abbreviation store := (gmap jstring (Z * Z)).

(** Modelled from the spec: the middleware [rateLimit] returns is code of the
    express-rate-limit package, which is missing here; only its configuration
    is in [server.js].  Following section 4.4 and the glossary (fixed window:
    requests are counted per key within a non-sliding interval and the count
    is reset at the interval boundary), a hit opens a window of [windowMs]
    for its key when the key has none or its window has ended, and is counted
    in the current window otherwise. *)
Definition increment (s : store) (key : jstring) (now : Z) : store * Z :=
  match s !! key with
  | Some (hits, resetTime) =>
      if now <? resetTime then (<[key := (hits + 1, resetTime)]> s, hits + 1)
      else (<[key := (1, now + windowMs)]> s, 1)
  | None => (<[key := (1, now + windowMs)]> s, 1)
  end.

(** What a middleware does with a request: call [next()], or answer itself. *)
Inductive verdict :=
| Next
| Answer (status : Z) (b : body).

#[global] Instance verdict_eq_dec : EqDecision verdict.
Proof. solve_decision. Defined.

(** Modelled from the spec: the missing middleware of express-rate-limit.
    Once the hits of the window exceed [max] the request is answered at once
    with the rate-limit error (status 429 and the configured message), and
    [next()] is not called. *)
Definition limiter (s : store) (r : request) : store * verdict :=
  let '(s', totalHits) := increment s (r_ip r) (r_time r) in
  (s', if totalHits >? max then Answer 429 message else Next).

Fixpoint starts_with (p s : jstring) : bool :=
  match p, s with
  | [], _ => true
  | c :: p', d :: s' => (c =? d)%N && starts_with p' s'
  | _ :: _, [] => false
  end.

(** Modelled from the spec: the mount point of [app.use('/api/', limiter)];
    the matching itself is done by Express, which is missing here.  The
    limiter is run for the paths of the API namespace and for no other. *)
Definition mounted (path : jstring) : bool := starts_with (lit "/api/") path.

Definition guard (s : store) (r : request) : store * verdict :=
  if mounted (r_path r) then limiter s r else (s, Next).

(** The verdicts of the guard on a sequence of requests, in arrival order. *)
Fixpoint serve (s : store) (rs : list request) : list (request * verdict) :=
  match rs with
  | [] => []
  | r :: rs' => let '(s', v) := guard s r in (r, v) :: serve s' rs'
  end.

(** The API request of client [a]. *)
Definition api_request_of (a : jstring) (r : request) : bool :=
  bool_decide (r_ip r = a) && mounted (r_path r).

(** The verdicts on the API requests of client [a], in arrival order. *)
Definition verdicts_of (a : jstring) (s : store) (rs : list request)
  : list verdict :=
  List.map snd (List.filter (fun rv => api_request_of a (fst rv)) (serve s rs)).

(** An API request as the limiter counted it: the end of the window it fell
    in, and the verdict on it. *)
Record counted := Counted {
  c_reset : Z;
  c_request : request;
  c_verdict : verdict
}.

(** The API requests of client [a] in arrival order, each with the end of
    the window the limiter counts it in, read from the store after the hit,
    and with the verdict on it. *)
Fixpoint windows_of (a : jstring) (s : store) (rs : list request)
  : list counted :=
  match rs with
  | [] => []
  | r :: rs' =>
      let '(s', v) := guard s r in
      (if api_request_of a r then
         match s' !! a with
         | Some (_, resetTime) => [Counted resetTime r v]
         | None => []
         end
       else [])
      ++ windows_of a s' rs'
  end.

(** The requests counted in the window that ends at [R]. *)
Definition window (R : Z) (ws : list counted) : list counted :=
  List.filter (fun c => c_reset c =? R) ws.

(** The hits the store has for client [a] in the window that ends at [R]. *)
Definition stored_hits (s : store) (a : jstring) (R : Z) : Z :=
  match s !! a with
  | Some (hits, resetTime) => if resetTime =? R then hits else 0
  | None => 0
  end.

(** Whether a counted request was passed on to the handlers. *)
Definition passed_on (c : counted) : bool := bool_decide (c_verdict c = Next).

End Limiter.

(** ** Concrete inputs used in the examples below *)

Definition mk_raw (id ext res : string) (note height : value) (vcodec : string)
  (filesize approx : value) : raw_format :=
  {| raw_format_id := VStr (lit id); raw_ext := VStr (lit ext);
     raw_resolution := VStr (lit res); raw_format_note := note;
     raw_height := height; raw_vcodec := VStr (lit vcodec);
     raw_filesize := filesize; raw_filesize_approx := approx |}.

(** Two formats with the same pair; the first one has no video. *)
Definition formats_first_filtered : list raw_format :=
  [mk_raw "140" "mp4" "640x360" VUndefined VNull "none" VNull VNull;
   mk_raw "18" "mp4" "640x360" (VStr (lit "360p")) (VNum 360) "avc1" VNull VNull].

(** A video format whose pair is the one of the synthetic MP3 entry. *)
Definition formats_like_mp3 : list raw_format :=
  [mk_raw "7" "mp3" "Audio Only" VUndefined VNull "h264" VNull VNull].

(** A resolution with a negative number before one without a number. *)
Definition formats_negative : list raw_format :=
  [mk_raw "1" "mp4" "-5x1" VUndefined VNull "avc1" VNull VNull;
   mk_raw "2" "mp4" "unknown" VUndefined VNull "avc1" VNull VNull].

(** A format without a [vcodec] property. *)
Definition format_no_vcodec : raw_format :=
  {| raw_format_id := VStr (lit "0"); raw_ext := VStr (lit "mp4");
     raw_resolution := VStr (lit "unknown"); raw_format_note := VUndefined;
     raw_height := VUndefined; raw_vcodec := VUndefined;
     raw_filesize := VNull; raw_filesize_approx := VNull |}.

(** Nine video formats with nine different resolutions. *)
Definition formats_nine : list raw_format :=
  [mk_raw "160" "mp4" "256x144" VUndefined (VNum 144) "avc1" VNull VNull;
   mk_raw "133" "mp4" "426x240" VUndefined (VNum 240) "avc1" VNull VNull;
   mk_raw "134" "mp4" "640x360" VUndefined (VNum 360) "avc1" VNull VNull;
   mk_raw "135" "mp4" "854x480" VUndefined (VNum 480) "avc1" VNull VNull;
   mk_raw "136" "mp4" "1280x720" VUndefined (VNum 720) "avc1" VNull VNull;
   mk_raw "137" "mp4" "1920x1080" VUndefined (VNum 1080) "avc1" VNull VNull;
   mk_raw "400" "mp4" "2560x1440" VUndefined (VNum 1440) "av01" VNull VNull;
   mk_raw "401" "mp4" "3840x2160" VUndefined (VNum 2160) "av01" VNull VNull;
   mk_raw "571" "mp4" "7680x4320" VUndefined (VNum 4320) "av01" VNull VNull].

(** Two formats with the same identifier; only the second carries a size. *)
Definition formats_same_id : list raw_format :=
  [mk_raw "18" "mp4" "640x360" VUndefined (VNum 360) "avc1" VNull VNull;
   mk_raw "18" "mp4" "640x360" VUndefined (VNum 360) "avc1" (VNum 1000) VNull].


Definition metadata_with (fs : list raw_format) : metadata :=
  {| title := VStr (lit "Foo: Bar/Baz!"); thumbnail := VNull;
     uploader := VNull; duration_string := VNull; formats := Some fs |}.

Definition query_18 : query :=
  {| q_url := Some (lit "https://example.org/v"); q_format := Some (lit "18") |}.

(** Twelve API requests of one client within twelve seconds, between two
    requests to the redirect route and one request of another client. *)
Definition client_a : jstring := lit "203.0.113.7".
Definition burst : list Limiter.request :=
  Limiter.Request 0 client_a (lit "/r")
  :: Limiter.Request 5 (lit "198.51.100.2") (lit "/api/info")
  :: List.map (fun k => Limiter.Request (1000 * k) client_a (lit "/api/info"))
       [1; 2; 3; 4; 5; 6; 7; 8; 9; 10; 11; 12]
  ++ [Limiter.Request 12500 client_a (lit "/r")].

(** The burst, followed by two API requests of the client after the window
    that its first API request opened has ended. *)
Definition two_windows : list Limiter.request :=
  burst ++ [Limiter.Request 61000 client_a (lit "/api/info");
            Limiter.Request 62000 client_a (lit "/api/download")].

(** A video format with neither note nor height. *)
Definition format_bare : raw_format :=
  {| raw_format_id := VStr (lit "22"); raw_ext := VStr (lit "mp4");
     raw_resolution := VStr (lit "1280x720"); raw_format_note := VUndefined;
     raw_height := VUndefined; raw_vcodec := VStr (lit "avc1");
     raw_filesize := VNull; raw_filesize_approx := VNull |}.

(** ** Further definitions: the rest of [server.js] *)

(** The deduplication written as the usual keep-the-first recursion over the
    entries seen so far; it is compared with the index test of line 94
    below. *)
Fixpoint first_seen (seen l : list format) : list format :=
  match l with
  | [] => []
  | v :: l' =>
      if existsb (same_pair v) seen then first_seen (seen ++ [v]) l'
      else v :: first_seen (seen ++ [v]) l'
  end.

(** The decimal digits of a numeral, most significant first. *)
Fixpoint uint_digits (d : Decimal.uint) : list Z :=
  match d with
  | Decimal.Nil => []
  | Decimal.D0 d' => 0 :: uint_digits d'
  | Decimal.D1 d' => 1 :: uint_digits d'
  | Decimal.D2 d' => 2 :: uint_digits d'
  | Decimal.D3 d' => 3 :: uint_digits d'
  | Decimal.D4 d' => 4 :: uint_digits d'
  | Decimal.D5 d' => 5 :: uint_digits d'
  | Decimal.D6 d' => 6 :: uint_digits d'
  | Decimal.D7 d' => 7 :: uint_digits d'
  | Decimal.D8 d' => 8 :: uint_digits d'
  | Decimal.D9 d' => 9 :: uint_digits d'
  end.

(** A string does not go on with a decimal digit. *)
Definition no_digit_ahead (s : jstring) : bool :=
  match s with
  | [] => true
  | c :: _ => negb ((48 <=? c) && (c <=? 57))%N
  end.

Definition is_respond (e : effect) : bool :=
  match e with
  | Respond _ => true
  | _ => false
  end.
Definition is_pipe (e : effect) : bool :=
  match e with
  | PipeToResponse => true
  | _ => false
  end.
Definition is_header (e : effect) : bool :=
  match e with
  | Header _ _ => true
  | _ => false
  end.
Definition count (p : effect -> bool) (tr : list effect) : nat :=
  length (List.filter p tr).

(** ** Start of the server (lines 37 to 65 and 186 to 194) *)

Module Startup.

(** What the start-up code does to the outside, in program order. *)
Inductive event :=
| ExistsSync (path : jstring)
| DownloadFromGithub (path : jstring)
| ChmodSync (path mode : jstring)
| NewYTDlpWrap (path : jstring)
| Listen (port : value)
| Log (msg : jstring)
| LogError (msg : jstring).

#[global] Instance event_eq_dec : EqDecision event.
Proof. solve_decision. Defined.

(** How [app.listen(PORT, callback)] turns out: the callback is run, or the
    call throws, or neither happens (the server reports its failure as an
    event, which the program does not listen to). *)
Inductive listen_outcome :=
| CallsBack
| ListenThrows
| NoCallback.

(** The environment of the process: [process.platform], [__dirname],
    [process.env.PORT], whether the binary is on disk, and how the calls
    that can fail turn out. *)
Record world := World {
  platform : jstring;
  dirname : jstring;
  env_PORT : option jstring;
  binary_exists : bool;
  download_succeeds : bool;
  chmod_succeeds : bool;
  listen : listen_outcome
}.

(** Emitted events, and [None] for a rejected promise or a thrown error. *)
Definition T (A : Type) : Type := list event * option A.

Definition emit (e : event) : T unit := ([e], Some tt).
Definition ok : T unit := ([], Some tt).
Definition fail : T unit := ([], None).
Definition and_then (m k : T unit) : T unit :=
  match m with
  | (w, Some _) => let '(w', r) := k in (w ++ w', r)
  | (w, None) => (w, None)
  end.
Definition try_catch (m h : T unit) : T unit :=
  match m with
  | (w, Some a) => (w, Some a)
  | (w, None) => let '(w', r) := h in (w ++ w', r)
  end.

Infix ">>" := and_then (at level 60, right associativity).

Section WithPath.

(** [path.join] of Node, which is not part of the program. *)
Variable path_join : jstring -> jstring -> jstring.

Variable w : world.

(** [process.env.PORT || 3000] *)
Definition PORT : value :=
  match env_PORT w with
  | Some (c :: s) => VStr (c :: s)
  | _ => VNum 3000
  end.

Definition IS_WINDOWS : bool := bool_decide (platform w = lit "win32").
Definition BINARY_NAME : jstring :=
  if IS_WINDOWS then lit "yt-dlp.exe" else lit "yt-dlp".
Definition YTDLP_PATH : jstring := path_join (dirname w) BINARY_NAME.

(** [async function initYtDlp()] *)
Definition initYtDlp : T unit :=
  emit (ExistsSync YTDLP_PATH) >>
  (if negb (binary_exists w) then
     emit (Log (lit "Downloading yt-dlp binary for " ++ platform w
                ++ lit "...")) >>
     emit (DownloadFromGithub YTDLP_PATH) >>
     (if download_succeeds w then ok else fail) >>
     emit (Log (lit "yt-dlp binary downloaded successfully."))
   else ok) >>
  (if negb IS_WINDOWS then
     try_catch
       (emit (Log (lit "Applying execution permissions to yt-dlp...")) >>
        emit (ChmodSync YTDLP_PATH (lit "755")) >>
        (if chmod_succeeds w then ok else fail))
       (emit (LogError (lit "Failed to set execution permissions:")))
   else ok) >>
  emit (NewYTDlpWrap YTDLP_PATH).

(** [app.listen(PORT, () => {...})]: the two lines are logged by the
    callback. *)
Definition app_listen : T unit :=
  emit (Listen PORT) >>
  match listen w with
  | CallsBack =>
      emit (Log (lit "Server is running at http://localhost:"
                 ++ ToString PORT)) >>
      emit (Log (lit "Redirect tool available at: http://localhost:"
                 ++ ToString PORT ++ lit "/r"))
  | ListenThrows => fail
  | NoCallback => ok
  end.

(** [initYtDlp().then(() => app.listen(PORT, ...)).catch(...)]: the handler
    of [catch] gets what [initYtDlp] rejects with and what [app.listen]
    throws. *)
Definition start : list event :=
  fst (try_catch (initYtDlp >> app_listen)
                 (emit (LogError (lit "Failed to initialize yt-dlp:")))).

End WithPath.

(** The path an event is about. *)
Definition path_of (e : event) : option jstring :=
  match e with
  | ExistsSync p | DownloadFromGithub p | ChmodSync p _ | NewYTDlpWrap p =>
      Some p
  | _ => None
  end.

End Startup.

(** ** The last middleware (lines 180 to 184) *)

Inductive fallback_effect :=
| CallNext
| SendFile (path : jstring).

(** [req.url.startsWith('/api') || req.url === '/r'], with the path of the
    page [path.join(__dirname, 'public', 'index.html')] as a parameter. *)
Definition fallback (index_html : jstring) (url : jstring) : fallback_effect :=
  if Limiter.starts_with (lit "/api") url || bool_decide (url = lit "/r")
  then CallNext
  else SendFile index_html.

(** What Node accepts as a header value: the tab and the code units from 32
    to 126 and from 128 to 255. *)
Definition node_accepts (name : jstring) (v : value) : bool :=
  forallb (fun c => (c =? 9) || (32 <=? c) && (c <=? 126)
                    || (128 <=? c) && (c <=? 255))%N
          (ToString v).

(** A stream that reports no error, and one that reports an error before
    anything was written. *)
Definition no_errors (args : list jstring) : list bool := [].
Definition early_error (args : list jstring) : list bool := [false].

(** Metadata whose title has an ideographic space (U+3000), which [\s]
    keeps. *)
Definition metadata_wide_space : metadata :=
  {| title := VStr [65; 12288; 66]%N; thumbnail := VNull; uploader := VNull;
     duration_string := VNull;
     formats :=
       Some [mk_raw "18" "mp4" "640x360" VUndefined (VNum 360) "avc1"
                    (VNum 1000) VNull] |}.

(** Metadata without a format list, and metadata whose title is [null]. *)
Definition metadata_no_formats : metadata :=
  {| title := VStr (lit "Clip"); thumbnail := VNull; uploader := VNull;
     duration_string := VNull; formats := None |}.
Definition metadata_null_title : metadata :=
  {| title := VNull; thumbnail := VNull; uploader := VNull;
     duration_string := VNull; formats := Some formats_nine |}.

(** Example worlds and inputs for the properties of the start-up code. *)
Definition join_slash (a b : jstring) : jstring := a ++ lit "/" ++ b.
Definition linux_fresh : Startup.world :=
  {| Startup.platform := lit "linux"; Startup.dirname := lit "/srv/app";
     Startup.env_PORT := None; Startup.binary_exists := false;
     Startup.download_succeeds := true; Startup.chmod_succeeds := false;
     Startup.listen := Startup.CallsBack |}.
Definition linux_offline : Startup.world :=
  {| Startup.platform := lit "linux"; Startup.dirname := lit "/srv/app";
     Startup.env_PORT := Some (lit "8080"); Startup.binary_exists := false;
     Startup.download_succeeds := false; Startup.chmod_succeeds := true;
     Startup.listen := Startup.CallsBack |}.
Definition linux_bad_port : Startup.world :=
  {| Startup.platform := lit "linux"; Startup.dirname := lit "/srv/app";
     Startup.env_PORT := Some (lit "70000"); Startup.binary_exists := true;
     Startup.download_succeeds := false; Startup.chmod_succeeds := true;
     Startup.listen := Startup.ListenThrows |}.

(** * Properties *)

(** ** Values and strings *)

Lemma strict_eq_true (a b : value) : strict_eq a b = true <-> a = b.
Proof. unfold strict_eq. apply bool_decide_eq_true. Qed.

Lemma strict_ne_true (a b : value) : strict_ne a b = true <-> a <> b.
Proof.
  unfold strict_ne, strict_eq. rewrite negb_true_iff. apply bool_decide_eq_false.
Qed.

(** *** The number model *)

Lemma nearest_double_small (n : Z) :
  0 <= n < 2 ^ 53 -> nearest_double n = Some n.
Proof.
  intros Hn. unfold nearest_double.
  assert (He : Z.max 0 (Z.log2 n - 52) = 0).
  { destruct (Z.eq_dec n 0) as [->|Hne]; [reflexivity|].
    assert (Z.log2 n < 53) by (apply Z.log2_lt_pow2; lia). lia. }
  rewrite He, Z.shiftr_0_r, !Z.shiftl_0_r.
  replace (n - n) with 0 by lia. change (2 * 0 <? 2 ^ 0) with true.
  cbv iota.
  destruct (Z.ltb_spec n (2 ^ 1024)) as [_|Hge]; [reflexivity|].
  exfalso. assert (2 ^ 53 < 2 ^ 1024) by (apply Z.pow_lt_mono_r; lia). lia.
Qed.

(** An integer below 2^53 in magnitude is a double. *)
Lemma to_double_small (z : Z) : Z.abs z < 2 ^ 53 -> to_double z = Finite z.
Proof.
  intros Hz. unfold to_double.
  rewrite nearest_double_small by lia. f_equal.
  destruct z; simpl; lia.
Qed.

Lemma nearest_double_positive (n v : Z) :
  0 < n -> nearest_double n = Some v -> 0 < v < 2 ^ 1024.
Proof.
  intros Hn. unfold nearest_double.
  set (e := Z.max 0 (Z.log2 n - 52)).
  assert (He : 0 <= e) by (unfold e; lia).
  assert (Hpow : 2 ^ e <= n).
  { unfold e. destruct (Z.max_spec 0 (Z.log2 n - 52)) as [[_ ->]|[_ ->]].
    - transitivity (2 ^ Z.log2 n); [|apply Z.log2_spec, Hn].
      apply Z.pow_le_mono_r; lia.
    - simpl. lia. }
  assert (Hq : 1 <= Z.shiftr n e).
  { rewrite Z.shiftr_div_pow2 by exact He.
    apply Z.div_le_lower_bound; lia. }
  set (q := Z.shiftr n e) in *.
  set (q' := if 2 * (n - Z.shiftl q e) <? 2 ^ e then q
             else if 2 ^ e <? 2 * (n - Z.shiftl q e) then q + 1
             else if Z.even q then q else q + 1).
  assert (Hq' : 1 <= q').
  { unfold q'. repeat match goal with |- context [if ?b then _ else _] =>
                                        destruct b end; lia. }
  destruct (Z.ltb_spec (Z.shiftl q' e) (2 ^ 1024)) as [Hlt|_]; [|discriminate].
  intros [= <-]. split; [|exact Hlt].
  rewrite Z.shiftl_mul_pow2 by exact He.
  assert (0 < 2 ^ e) by (apply Z.pow_pos_nonneg; lia). nia.
Qed.

(** A number [to_double] returns is in range and has the sign of the
    integer. *)
Lemma to_double_rank (z : Z) :
  Z.abs (rank (to_double z)) <= 2 ^ 1024 /\
  (rank (to_double z) <= 0 <-> z <= 0) /\
  (forall v, to_double z = Finite v -> Z.abs v < 2 ^ 1024).
Proof.
  assert (Hbig : 0 < 2 ^ 1024) by (apply Z.pow_pos_nonneg; lia).
  unfold to_double.
  destruct (Z.eq_dec z 0) as [->|Hz].
  { change (Z.abs 0) with 0.
    rewrite (nearest_double_small 0)
      by (split; [lia|apply Z.pow_pos_nonneg; lia]).
    simpl rank. repeat split; try lia. intros v [= <-]. simpl. lia. }
  destruct (nearest_double (Z.abs z)) as [v|] eqn:E.
  - apply nearest_double_positive in E; [|lia].
    simpl rank. repeat split; try (destruct z; simpl in *; nia).
    intros v' [= <-]. destruct z; simpl in *; nia.
  - destruct (Z.ltb_spec z 0); simpl rank; repeat split; try lia; discriminate.
Qed.

Lemma num_or_zero_rank (n : number) : rank (num_or_zero n) = rank n.
Proof.
  destruct n as [|z|s]; simpl; [reflexivity| |reflexivity].
  destruct (Z.eqb_spec z 0) as [->|_]; reflexivity.
Qed.

(** [parseInt(x) || 0] is a finite double or an infinity. *)
Lemma parseInt_or_zero_shape (v : value) :
  (exists z, num_or_zero (parseInt v) = Finite z /\ Z.abs z < 2 ^ 1024) \/
  (exists s, num_or_zero (parseInt v) = Infinity s).
Proof.
  assert (Hbig : 0 < 2 ^ 1024) by (apply Z.pow_pos_nonneg; lia).
  assert (H : parseInt v = NaN \/ exists z, parseInt v = to_double z).
  { unfold parseInt. destruct (match _ with 48%N :: _ => _ | _ => _ end)
      as [R S2].
    destruct (radix_prefix R S2); [left; reflexivity | right; eauto]. }
  destruct H as [->|(z & ->)]; [left; exists 0; simpl; split; [reflexivity|lia]|].
  destruct (to_double_rank z) as (_ & _ & Hfin).
  destruct (to_double z) as [|w|s] eqn:E; simpl.
  - left. exists 0. split; [reflexivity | simpl; lia].
  - specialize (Hfin w eq_refl).
    destruct (Z.eqb_spec w 0) as [->|_]; left; eexists; split;
      try reflexivity; simpl; lia.
  - right. eauto.
Qed.

(** The sign of a difference of two such numbers is the sign of the
    difference of their places. *)
Lemma number_sub_sign (x y : number) :
  ((exists z, x = Finite z /\ Z.abs z < 2 ^ 1024) \/ exists s, x = Infinity s) ->
  ((exists z, y = Finite z /\ Z.abs z < 2 ^ 1024) \/ exists s, y = Infinity s) ->
  (rank (number_sub x y) <= 0 <-> rank x - rank y <= 0).
Proof.
  assert (Hbig : 0 < 2 ^ 1024) by (apply Z.pow_pos_nonneg; lia).
  intros [(a & -> & Ha)|([|] & ->)] [(b & -> & Hb)|([|] & ->)];
    simpl number_sub; simpl rank; try lia.
  destruct (to_double_rank (a - b)) as (_ & Hs & _). rewrite Hs. lia.
Qed.

Lemma same_pair_true (v t : format) : same_pair v t = true <-> pair_of t = pair_of v.
Proof.
  unfold same_pair, pair_of. rewrite andb_true_iff, !strict_eq_true.
  split; [intros [-> ->]; reflexivity | intros [= -> ->]; auto].
Qed.

Lemma same_pair_false (v t : format) : same_pair v t = false <-> pair_of t <> pair_of v.
Proof.
  rewrite <- same_pair_true. destruct (same_pair v t); split; congruence.
Qed.

Lemma is_video_true (f : raw_format) :
  is_video f = true <->
  raw_vcodec f <> VStr (lit "none") /\ raw_resolution f <> VStr (lit "audio only").
Proof. unfold is_video. rewrite andb_true_iff, !strict_ne_true. tauto. Qed.

Example parseInt_width : parseInt (VStr (lit "1920x1080")) = Finite 1920.
Proof. reflexivity. Qed.

Example parseInt_audio_only : parseInt (VStr (lit "audio only")) = NaN.
Proof. reflexivity. Qed.

Example parseInt_undefined : parseInt VUndefined = NaN.
Proof. reflexivity. Qed.

Example parseInt_signed : parseInt (VStr (lit "  -12px")) = Finite (-12).
Proof. reflexivity. Qed.

Example parseInt_hex : parseInt (VStr (lit "0x1F")) = Finite 31.
Proof. reflexivity. Qed.

Example parseInt_rounds :
  parseInt (VStr (lit "9007199254740993x1")) = Finite 9007199254740992.
Proof. reflexivity. Qed.

Example ToString_large :
  ToString (VNum (2 ^ 70)) = lit "1.1805916207174113e+21"
  /\ ToString (VNum (2 ^ 64)) = lit "18446744073709552000".
Proof. split; vm_compute; reflexivity. Qed.

Example height_label : add_str (VNum 1080) (lit "p") = VStr (lit "1080p").
Proof. reflexivity. Qed.

(** Removing the matches of a negated class keeps exactly the class. *)
Lemma replace_global_filter (class : char16 -> bool) (s : jstring) :
  replace_global (fun c => negb (class c)) [] s = List.filter class s.
Proof.
  induction s as [|c s IH]; simpl; [reflexivity|].
  destruct (class c); simpl; rewrite IH; reflexivity.
Qed.

(** ** Array methods *)

Section ArrayFacts.
Context {A : Type}.
Implicit Types (l a : list A) (p : A -> bool).

Lemma findIndex_from_first p i l x l' :
  existsb p l = false -> p x = true ->
  Array.findIndex_from p i (l ++ x :: l') = i + Z.of_nat (length l).
Proof.
  revert i. induction l as [|y l IH]; intros i Hl Hx; simpl in *.
  - rewrite Hx. lia.
  - destruct (p y); simpl in Hl; [discriminate|].
    rewrite IH by assumption. lia.
Qed.

Lemma findIndex_from_early p i l l' :
  existsb p l = true ->
  i <= Array.findIndex_from p i (l ++ l') < i + Z.of_nat (length l).
Proof.
  revert i. induction l as [|y l IH]; intros i Hl; simpl in *; [discriminate|].
  destruct (p y); simpl in Hl; [lia|].
  specialize (IH (i + 1) Hl). lia.
Qed.

(** [find] returns the first element that satisfies the predicate. *)
Lemma find_first p a x :
  Array.find p a = Some x <->
  exists l1 l2, a = l1 ++ x :: l2 /\ existsb p l1 = false /\ p x = true.
Proof.
  split.
  - induction a as [|y a IH]; simpl; [discriminate|].
    destruct (p y) eqn:E.
    + intros [= <-]. exists [], a. auto.
    + intros H. destruct (IH H) as (l1 & l2 & -> & H1 & H2).
      exists (y :: l1), l2. simpl. rewrite E. auto.
  - intros (l1 & l2 & -> & H1 & H2).
    induction l1 as [|y l1 IH]; simpl in *; [rewrite H2; reflexivity|].
    destruct (p y); simpl in H1; [discriminate | auto].
Qed.

(** The sort reads a comparator by the sign of its results only. *)
Lemma sort_ext (cmp cmp' : A -> A -> Z) l :
  (forall x y, (cmp x y <=? 0) = (cmp' x y <=? 0)) ->
  Array.sort cmp l = Array.sort cmp' l.
Proof.
  intros Hext. induction l as [|x l IH]; simpl; [reflexivity|].
  fold (Array.sort cmp l) (Array.sort cmp' l). rewrite IH.
  generalize (Array.sort cmp' l). intros k.
  induction k as [|y k IHk]; simpl; [reflexivity|].
  rewrite Hext, IHk. reflexivity.
Qed.

Variable key : A -> Z.
#[local] Abbreviation desc := (desc key).
#[local] Abbreviation ge_key := (ge_key key).

Lemma insert_perm x l : Permutation (Array.insert desc x l) (x :: l).
Proof.
  induction l as [|y l IH]; simpl; [reflexivity|].
  destruct (desc x y <=? 0); [reflexivity|].
  rewrite IH. apply perm_swap.
Qed.

Lemma sort_perm l : Permutation (Array.sort desc l) l.
Proof.
  induction l as [|x l IH]; simpl; [reflexivity|].
  fold (Array.sort desc l). rewrite insert_perm, IH. reflexivity.
Qed.

Lemma insert_sorted x l :
  StronglySorted ge_key l -> StronglySorted ge_key (Array.insert desc x l).
Proof.
  induction 1 as [|y l Hl IH Hy]; simpl.
  - repeat constructor.
  - destruct (Z.leb_spec (desc x y) 0) as [Hle|Hgt]; unfold desc in *.
    + constructor; [constructor; assumption|].
      constructor; [unfold ge_key; lia|].
      eapply Forall_impl; [eassumption|]. unfold ge_key. intros; simpl in *; lia.
    + constructor; [assumption|].
      rewrite insert_perm. constructor; [unfold ge_key; lia | assumption].
Qed.

Lemma sort_sorted l : StronglySorted ge_key (Array.sort desc l).
Proof.
  induction l as [|x l IH]; simpl; [constructor|].
  apply insert_sorted, IH.
Qed.

(** The sort is stable: elements with equal keys keep their order. *)
Lemma insert_stable k x l :
  StronglySorted ge_key l ->
  List.filter (fun y => key y =? k) (Array.insert desc x l)
  = List.filter (fun y => key y =? k) (x :: l).
Proof.
  induction 1 as [|y l Hl IH Hy]; simpl; [reflexivity|].
  destruct (Z.leb_spec (desc x y) 0) as [Hle|Hgt]; unfold desc in *;
    [reflexivity|].
  simpl. rewrite IH. simpl.
  destruct (Z.eqb_spec (key y) k), (Z.eqb_spec (key x) k); try reflexivity.
  lia.
Qed.

Lemma sort_stable k l :
  List.filter (fun y => key y =? k) (Array.sort desc l)
  = List.filter (fun y => key y =? k) l.
Proof.
  induction l as [|x l IH]; simpl; [reflexivity|].
  fold (Array.sort desc l). rewrite insert_stable by apply sort_sorted.
  simpl. rewrite IH. reflexivity.
Qed.

Lemma StronglySorted_take (R : A -> A -> Prop) n l :
  StronglySorted R l -> StronglySorted R (take n l).
Proof.
  intros H. revert n. induction H as [|x l Hl IH Hx]; intros [|n]; simpl;
    try constructor; auto.
  apply Forall_take. assumption.
Qed.

End ArrayFacts.

(** ** The format pipeline *)

Lemma existsb_same_pair_true (v : format) (l : list format) :
  existsb (same_pair v) l = true <-> In (pair_of v) (List.map pair_of l).
Proof.
  induction l as [|t l IH]; simpl; [split; [discriminate | tauto]|].
  rewrite orb_true_iff, IH, same_pair_true. tauto.
Qed.

Lemma existsb_same_pair_false (v : format) (l : list format) :
  existsb (same_pair v) l = false <-> ~ In (pair_of v) (List.map pair_of l).
Proof.
  induction l as [|t l IH]; simpl; [tauto|].
  rewrite orb_false_iff, IH, same_pair_false. tauto.
Qed.

(** On the element at index [length pre], the test of the deduplication
    filter says whether an earlier element has the same pair. *)
Lemma first_of_pair_spec (pre : list format) (v : format) (l : list format) :
  first_of_pair v (Z.of_nat (length pre)) (pre ++ v :: l)
  = negb (existsb (same_pair v) pre).
Proof.
  unfold first_of_pair, Array.findIndex.
  destruct (existsb (same_pair v) pre) eqn:E; simpl.
  - pose proof (findIndex_from_early (same_pair v) 0 pre (v :: l) E).
    apply Z.eqb_neq. lia.
  - rewrite findIndex_from_first; [apply Z.eqb_eq; lia | assumption |].
    apply same_pair_true. reflexivity.
Qed.

(** What the deduplication filter keeps of the part [l] of the array
    [pre ++ l]: entries with pairwise different pairs, none of them a pair of
    [pre], each the first of [l] with its pair. *)
Lemma filter_from_first_of_pair (l pre : list format) :
  let out :=
    Array.filter_from first_of_pair (pre ++ l) (Z.of_nat (length pre)) l in
  NoDup (List.map pair_of out) /\
  Forall (fun e =>
            ~ In (pair_of e) (List.map pair_of pre) /\
            exists l1 l2, l = l1 ++ e :: l2 /\
                          ~ In (pair_of e) (List.map pair_of l1)) out /\
  Forall (fun v => In (pair_of v) (List.map pair_of (pre ++ out))) l.
Proof.
  revert pre. induction l as [|v l IH]; intros pre; simpl.
  - repeat split; constructor.
  - specialize (IH (pre ++ [v])).
    rewrite <- app_assoc, length_app in IH. simpl in IH.
    replace (Z.of_nat (length pre + 1)) with (Z.of_nat (length pre) + 1) in IH
      by lia.
    destruct IH as (Hnd & Hfirst & Hall).
    rewrite first_of_pair_spec.
    destruct (existsb (same_pair v) pre) eqn:E; simpl.
    + (* an earlier entry has the pair of [v]: dropped *)
      assert (Hv : In (pair_of v) (List.map pair_of pre)).
      { apply existsb_same_pair_true. exact E. }
      split; [assumption|]. split.
      * eapply Forall_impl; [exact Hfirst|]. simpl.
        intros e (Hpre & l1 & l2 & -> & Hl1).
        rewrite map_app, in_app_iff in Hpre. simpl in Hpre.
        split; [tauto|]. exists (v :: l1), l2. split; [reflexivity|].
        simpl. intros [Heq|Hin]; [|tauto]. rewrite <- Heq in Hpre. tauto.
      * constructor; [rewrite map_app, in_app_iff; auto|].
        eapply Forall_impl; [exact Hall|]. simpl. intros x.
        rewrite !map_app, !in_app_iff. simpl. intros [[?|[<-|[]]]|?]; auto.
    + (* [v] is the first with its pair: kept *)
      apply existsb_same_pair_false in E.
      assert (Hfresh : ~ In (pair_of v)
                (List.map pair_of
                   (Array.filter_from first_of_pair (pre ++ v :: l)
                      (Z.of_nat (length pre) + 1) l))).
      { rewrite in_map_iff. intros (e & Heq & Hin).
        rewrite Forall_forall in Hfirst.
        destruct (Hfirst e) as [Hpre _]; [apply list_elem_of_In; exact Hin|].
        apply Hpre. rewrite map_app, in_app_iff. simpl. auto. }
      split; [constructor; [rewrite list_elem_of_In|]; assumption|]. split.
      * constructor.
        { split; [assumption|]. exists [], l. simpl. auto. }
        eapply Forall_impl; [exact Hfirst|]. simpl.
        intros e (Hpre & l1 & l2 & -> & Hl1).
        rewrite map_app, in_app_iff in Hpre. simpl in Hpre.
        split; [tauto|]. exists (v :: l1), l2. split; [reflexivity|].
        simpl. intros [Heq|Hin]; [|tauto]. rewrite <- Heq in Hpre. tauto.
      * constructor; [rewrite map_app, in_app_iff; simpl; auto|].
        eapply Forall_impl; [exact Hall|]. simpl. intros x.
        rewrite !map_app, !in_app_iff. simpl. intros [[?|[<-|[]]]|?]; auto.
Qed.

(** The comparator of line 95 sorts by the place of
    [parseInt(x.resolution) || 0], highest first. *)
Lemma sort_by_resolution (l : list format) :
  Array.sort by_resolution_desc l = Array.sort (desc resolution_key) l.
Proof.
  apply sort_ext. intros x y.
  unfold by_resolution_desc, desc, resolution_key, resolution_number.
  pose proof (number_sub_sign _ _ (parseInt_or_zero_shape (resolution y))
                              (parseInt_or_zero_shape (resolution x))) as H.
  destruct (Z.leb_spec (rank (number_sub (num_or_zero (parseInt (resolution y)))
                                         (num_or_zero (parseInt (resolution x)))))
                       0),
    (Z.leb_spec (rank (num_or_zero (parseInt (resolution y)))
                 - rank (num_or_zero (parseInt (resolution x)))) 0);
    try reflexivity; lia.
Qed.

Lemma deduplicated_spec (raw : list raw_format) :
  NoDup (List.map pair_of (deduplicated raw)) /\
  Forall (fun e =>
            exists l1 l2,
              List.map present (video_formats raw) = l1 ++ e :: l2 /\
              ~ In (pair_of e) (List.map pair_of l1)) (deduplicated raw) /\
  Forall (fun v => In (pair_of v) (List.map pair_of (deduplicated raw)))
         (List.map present (video_formats raw)).
Proof.
  destruct (filter_from_first_of_pair (List.map present (video_formats raw)) [])
    as (Hnd & Hfirst & Hall).
  simpl in *. unfold deduplicated, Array.filter3.
  split; [assumption|]. split; [|assumption].
  eapply Forall_impl; [exact Hfirst|]. simpl. tauto.
Qed.

Lemma video_list_perm_take (raw : list raw_format) :
  exists s, Permutation s (deduplicated raw) /\
            StronglySorted (ge_key resolution_key) s /\
            video_list raw = take 8 s.
Proof.
  exists (Array.sort (desc resolution_key) (deduplicated raw)).
  split; [apply sort_perm|]. split; [apply sort_sorted|].
  unfold video_list, Array.slice0. rewrite sort_by_resolution. reflexivity.
Qed.

Lemma video_list_subseteq (raw : list raw_format) :
  video_list raw ⊆ deduplicated raw.
Proof.
  destruct (video_list_perm_take raw) as (s & Hp & _ & ->).
  rewrite <- Hp. apply subseteq_take.
Qed.

Lemma video_list_length (raw : list raw_format) :
  (length (video_list raw) <= 8)%nat.
Proof.
  destruct (video_list_perm_take raw) as (s & _ & _ & ->).
  rewrite length_take. lia.
Qed.

Lemma video_list_sorted (raw : list raw_format) :
  StronglySorted (ge_key resolution_key) (video_list raw).
Proof.
  destruct (video_list_perm_take raw) as (s & _ & Hs & ->).
  apply StronglySorted_take, Hs.
Qed.

Lemma video_list_NoDup (raw : list raw_format) :
  NoDup (List.map pair_of (video_list raw)).
Proof.
  destruct (video_list_perm_take raw) as (s & Hp & _ & ->).
  destruct (deduplicated_spec raw) as (Hnd & _).
  change (NoDup (pair_of <$> take 8 s)). rewrite fmap_take.
  eapply sublist_NoDup; [|apply sublist_take].
  rewrite Hp. exact Hnd.
Qed.

(** The first video format of [raw] whose presentation has the pair of [e]. *)
Lemma first_video_of_pair (raw : list raw_format) (e : format)
      (l1 l2 : list format) :
  List.map present (video_formats raw) = l1 ++ e :: l2 ->
  ~ In (pair_of e) (List.map pair_of l1) ->
  exists f,
    Array.find (fun f => is_video f
                         && bool_decide (pair_of (present f) = pair_of e)) raw
    = Some f /\ e = present f.
Proof.
  unfold video_formats, Array.filter.
  revert l1. induction raw as [|r raw IH]; intros l1; simpl.
  - intros H. destruct l1; discriminate.
  - destruct (is_video r) eqn:Ev; simpl; [|apply IH].
    destruct l1 as [|x l1]; simpl.
    + intros [= He Hrest] _. exists r.
      rewrite bool_decide_true by (rewrite He; reflexivity). auto.
    + intros [= He Hrest] Hn.
      rewrite bool_decide_false
        by (intros Heq; apply Hn; left; rewrite <- He; exact Heq).
      apply (IH l1); [exact Hrest | tauto].
Qed.

Lemma video_formats_elem (raw : list raw_format) (f : raw_format) :
  f ∈ video_formats raw <->
  f ∈ raw /\ raw_vcodec f <> VStr (lit "none")
  /\ raw_resolution f <> VStr (lit "audio only").
Proof.
  unfold video_formats, Array.filter.
  rewrite !list_elem_of_In, filter_In, is_video_true. tauto.
Qed.

Lemma video_formats_idem (raw : list raw_format) :
  video_formats (video_formats raw) = video_formats raw.
Proof.
  unfold video_formats, Array.filter.
  induction raw as [|r raw IH]; simpl; [reflexivity|].
  destruct (is_video r) eqn:E; simpl; [rewrite E, IH|]; auto.
Qed.

Lemma select_formats_cons (fs : option (list raw_format)) :
  select_formats fs = mp3_option :: video_list (default [] fs).
Proof. destruct fs; reflexivity. Qed.

Lemma StronglySorted_weaken {A} (R S : A -> A -> Prop) (l : list A) :
  (forall x y, R x y -> S x y) -> StronglySorted R l -> StronglySorted S l.
Proof.
  intros HRS. induction 1 as [|x l Hl IH Hx]; constructor; [assumption|].
  eapply Forall_impl; [exact Hx | auto].
Qed.

Lemma video_list_single (f : raw_format) :
  is_video f = true -> video_list [f] = [present f].
Proof.
  intros Hv. unfold video_list, deduplicated, video_formats, Array.filter.
  simpl. rewrite Hv. simpl. unfold Array.filter3. simpl.
  change (first_of_pair (present f) 0 [present f])
    with (first_of_pair (present f) (Z.of_nat (length (@nil format)))
                        ([] ++ present f :: [])).
  rewrite first_of_pair_spec. reflexivity.
Qed.

Example select_formats_nine :
  List.map format_id (select_formats (Some formats_nine))
  = List.map (fun id => VStr (lit id))
      ["mp3"; "571"; "401"; "400"; "137"; "136"; "135"; "134"; "133"]%string.
Proof. reflexivity. Qed.

Example select_formats_first_filtered :
  List.map format_id (select_formats (Some formats_first_filtered))
  = [VStr (lit "mp3"); VStr (lit "18")].
Proof. reflexivity. Qed.

(** ** The claims on the format pipeline *)

(** C1. For every raw format list (also when [metadata.formats] is
    undefined) the output of the format pipeline has at most 9 entries and
    its first entry is the synthetic MP3 entry, whose [format_id] is ['mp3'];
    for the empty raw list the output is exactly that entry. *)
Theorem C1_at_most_nine_mp3_first (fs : option (list raw_format)) :
  (length (select_formats fs) <= 9)%nat /\
  head (select_formats fs) = Some mp3_option /\
  format_id mp3_option = VStr (lit "mp3") /\
  select_formats (Some []) = [mp3_option].
Proof.
  rewrite select_formats_cons. simpl.
  pose proof (video_list_length (default [] fs)).
  repeat split; lia.
Qed.

(** C2, as the code has it.  For every raw format list, the entries of the
    output after the prepended MP3 entry are in non-increasing order of the
    number [parseInt] reads at the start of [resolution], its sign included,
    a resolution for which [parseInt] gives NaN counting as zero; so an
    entry without such a number comes after every entry with a positive
    number and before every entry with a negative one. *)
Theorem C2_sorted_by_resolution_desc (fs : option (list raw_format)) :
  (forall x, resolution_key x = rank (parseInt (resolution x))) /\
  StronglySorted (fun a b => resolution_key b <= resolution_key a)
                 (tail (select_formats fs)) /\
  StronglySorted
    (fun a b => parseInt (resolution a) = NaN -> resolution_key b <= 0)
    (tail (select_formats fs)) /\
  StronglySorted
    (fun a b => parseInt (resolution b) = NaN -> 0 <= resolution_key a)
    (tail (select_formats fs)).
Proof.
  assert (Hkey : forall x, resolution_key x = rank (parseInt (resolution x)))
    by (intros x; apply num_or_zero_rank).
  rewrite select_formats_cons. simpl.
  split; [exact Hkey|].
  repeat split;
    (eapply StronglySorted_weaken; [|apply video_list_sorted]);
    unfold ge_key; intros x y Hle; [exact Hle | |];
    intros Hnan; rewrite Hkey in Hle; rewrite Hkey in Hle;
    rewrite Hnan in Hle; simpl in Hle; rewrite Hkey; exact Hle.
Qed.

(** C2 as stated fails: a resolution without a number is listed before one
    whose number is negative, so it does not sort last. *)
Lemma C2_counterexample :
  exists a b rest,
    tail (select_formats (Some formats_negative)) = a :: b :: rest /\
    parseInt (resolution a) = NaN /\
    parseInt (resolution b) = Finite (-5).
Proof. do 3 eexists. repeat split. Qed.

(** C3, as the code has it.  For every raw format list, the entries of the
    output after the prepended MP3 entry have pairwise different
    (resolution, extension) pairs, and each of them is the presentation of
    the first input, among those that pass the video filter, with its pair. *)
Theorem C3_first_video_of_each_pair (raw : list raw_format) :
  NoDup (List.map pair_of (tail (select_formats (Some raw)))) /\
  Forall (fun e =>
            exists f,
              Array.find
                (fun f => is_video f
                          && bool_decide (pair_of (present f) = pair_of e))
                raw = Some f
              /\ e = present f)
         (tail (select_formats (Some raw))).
Proof.
  simpl. split; [apply video_list_NoDup|].
  destruct (deduplicated_spec raw) as (_ & Hfirst & _).
  rewrite Forall_forall in Hfirst. apply Forall_forall. intros e He.
  apply video_list_subseteq, Hfirst in He.
  destruct He as (l1 & l2 & Hsplit & Hl1).
  eapply first_video_of_pair; eassumption.
Qed.

(** C3 as stated fails twice: the prepended MP3 entry can share its pair with
    a video entry, and the first input with a pair is not the one presented
    when the video filter drops it. *)
Lemma C3_counterexample :
  ~ NoDup (List.map pair_of (select_formats (Some formats_like_mp3))) /\
  exists e f,
    e ∈ select_formats (Some formats_first_filtered) /\
    Array.find (fun f => bool_decide (pair_of (present f) = pair_of e))
               formats_first_filtered = Some f /\
    e <> present f.
Proof.
  split.
  - intros H. vm_compute in H. inversion H as [|x l Hx _]; subst.
    apply Hx. left.
  - eexists (present (mk_raw "18" "mp4" "640x360" (VStr (lit "360p")) (VNum 360)
                          "avc1" VNull VNull)), _.
    split; [vm_compute; right; left|].
    split; [vm_compute; reflexivity|].
    vm_compute. discriminate.
Qed.

(** C9, as the code has it.  For every raw format list, the filter step
    keeps exactly the inputs whose [vcodec] is not the string ['none'] and
    whose [resolution] is not the string ['audio only'], an input without a
    [vcodec] among them; an input with [vcodec] ['none'] or with resolution
    ['audio only'] is excluded from the video list: every entry of the list
    is the presentation of an input that passes the test, and dropping the
    others beforehand changes nothing. *)
Theorem C9_video_filter (raw : list raw_format) :
  (forall f, f ∈ video_formats raw <->
             f ∈ raw /\ raw_vcodec f <> VStr (lit "none")
             /\ raw_resolution f <> VStr (lit "audio only")) /\
  Forall (fun e =>
            exists f, f ∈ raw /\ raw_vcodec f <> VStr (lit "none")
                      /\ raw_resolution f <> VStr (lit "audio only")
                      /\ e = present f) (video_list raw) /\
  video_list (video_formats raw) = video_list raw.
Proof.
  split; [apply video_formats_elem|]. split.
  - destruct (deduplicated_spec raw) as (_ & Hfirst & _).
    rewrite Forall_forall in Hfirst. apply Forall_forall. intros e He.
    apply video_list_subseteq, Hfirst in He.
    destruct He as (l1 & l2 & Hsplit & _).
    assert (Hin : In e (List.map present (video_formats raw)))
      by (rewrite Hsplit; apply in_elt).
    apply in_map_iff in Hin. destruct Hin as (f & <- & Hf).
    apply list_elem_of_In, video_formats_elem in Hf. exists f. tauto.
  - unfold video_list, deduplicated. rewrite video_formats_idem. reflexivity.
Qed.

(** C9 as stated fails: an input that has no video codec at all, its
    [vcodec] being undefined, passes the filter and is presented. *)
Lemma C9_counterexample :
  raw_vcodec format_no_vcodec = VUndefined /\
  format_no_vcodec ∈ video_formats [format_no_vcodec] /\
  present format_no_vcodec ∈ select_formats (Some [format_no_vcodec]).
Proof.
  split; [reflexivity|]. split.
  - vm_compute. left.
  - vm_compute. right. left.
Qed.

(** C10. For a raw format that passes the video filter and has no (truthy)
    [format_note], the quality label is the concatenation of its [height]
    with ['p'], which is ['undefinedp'] when the height is absent; nothing is
    thrown, the entry is among the mapped ones of every list that contains
    it, and on its own it is presented after the MP3 entry. *)
Theorem C10_label_from_height (f : raw_format) :
  is_video f = true ->
  truthy (raw_format_note f) = false ->
  quality_label (present f) = VStr (ToString (raw_height f) ++ lit "p") /\
  (raw_height f = VUndefined ->
   quality_label (present f) = VStr (lit "undefinedp")) /\
  select_formats (Some [f]) = [mp3_option; present f] /\
  forall raw, f ∈ raw -> present f ∈ List.map present (video_formats raw).
Proof.
  intros Hv Hnote.
  assert (Hq : quality_label (present f)
               = VStr (ToString (raw_height f) ++ lit "p")).
  { simpl. unfold logical_or. rewrite Hnote. reflexivity. }
  split; [exact Hq|]. split; [|split].
  - intros Hh. rewrite Hq, Hh. reflexivity.
  - change (select_formats (Some [f])) with (mp3_option :: video_list [f]).
    rewrite video_list_single by exact Hv. reflexivity.
  - intros raw Hin. apply list_elem_of_In, in_map, list_elem_of_In.
    apply video_formats_elem. apply is_video_true in Hv. tauto.
Qed.

(** The theorem on a format with neither note nor height. *)
Lemma C10_label_from_height_witness :
  quality_label (present format_bare) = VStr (lit "undefinedp") /\
  select_formats (Some [format_bare]) = [mp3_option; present format_bare].
Proof.
  destruct (C10_label_from_height format_bare) as (_ & Hu & Hs & _);
    [reflexivity | reflexivity |].
  split; [apply Hu; reflexivity | exact Hs].
Defined.

(** ** The handlers *)

(** An info request whose metadata fetch succeeds answers with the output of
    the format pipeline. *)
Lemma api_info_trace (tool : list jstring -> option metadata) (q : query)
      (u : jstring) (md : metadata) :
  q_url q = Some u -> u <> [] -> tool (info_args u) = Some md ->
  api_info tool q
  = ([GetVideoInfo (info_args u);
      Respond (JsonInfo (title md) (thumbnail md) (uploader md)
                        (duration_string md) (select_formats (formats md)))],
     Some tt).
Proof.
  intros Hu Hne Htool. destruct u as [|c u]; [congruence|].
  unfold api_info, getVideoInfo. rewrite Hu.
  change (param_or (Some (c :: u)) []) with (c :: u). simpl negb. cbv iota.
  unfold mbind, M_bind, bind, try_catch, emit, ret, throw.
  rewrite Htool. reflexivity.
Qed.

(** When the fetch fails the answer is the generic server error. *)
Lemma api_info_failure (tool : list jstring -> option metadata) (q : query)
      (u : jstring) :
  q_url q = Some u -> u <> [] -> tool (info_args u) = None ->
  api_info tool q
  = ([GetVideoInfo (info_args u); ConsoleError (lit "Error fetching info:");
      Status 500;
      Respond (JsonError (lit "Failed to fetch video information."))],
     Some tt).
Proof.
  intros Hu Hne Htool. destruct u as [|c u]; [congruence|].
  unfold api_info, getVideoInfo. rewrite Hu.
  change (param_or (Some (c :: u)) []) with (c :: u). simpl negb. cbv iota.
  unfold mbind, M_bind, bind, try_catch, emit, ret, throw.
  rewrite Htool. reflexivity.
Qed.

Lemma filename_of_filter (t : jstring) (isMp3 : bool) :
  filename_of t isMp3
  = List.filter safe_char t ++ lit "." ++ (if isMp3 then lit "mp3" else lit "mp4").
Proof.
  unfold filename_of.
  change unsafe_char with (fun c => negb (safe_char c)).
  rewrite replace_global_filter. reflexivity.
Qed.

(** ** The download handler *)

(** Without a [url] parameter a handler answers 400 and does nothing
    else. *)
Lemma api_info_no_url (tool : list jstring -> option metadata) (q : query) :
  param_truthy (q_url q) = false ->
  api_info tool q
  = ([Status 400; Respond (JsonError (lit "URL is required"))], Some tt).
Proof. intros H. unfold api_info. rewrite H. reflexivity. Qed.

Lemma api_download_no_url (tool : list jstring -> option metadata)
      (accepts : jstring -> value -> bool)
      (errs : list jstring -> list bool) (q : query) :
  param_truthy (q_url q) = false ->
  api_download tool accepts errs q
  = ([Status 400; Respond (Text (lit "URL is required"))], Some tt).
Proof. intros H. unfold api_download. rewrite H. reflexivity. Qed.

(** A download fails in the [catch] block, before any call on the response,
    when the tool gives no metadata or no title that is a string. *)
Lemma api_download_early (tool : list jstring -> option metadata)
      (accepts : jstring -> value -> bool)
      (errs : list jstring -> list bool) (q : query) (u : jstring) :
  q_url q = Some u -> u <> [] ->
  (tool (info_args u) = None \/
   exists md, tool (info_args u) = Some md /\ forall t, title md <> VStr t) ->
  api_download tool accepts errs q
  = ([ConsoleLog (lit "Preparing download for: " ++ u ++ lit " [Format: "
                  ++ param_or (q_format q) (lit "best") ++ lit "]");
      GetVideoInfo (info_args u);
      ConsoleError (lit "Preparation error:"); Status 500;
      Respond (Text (lit "Failed to prepare download"))],
     Some tt).
Proof.
  intros Hu Hne Hfail. destruct u as [|c u]; [congruence|].
  unfold api_download, getVideoInfo, res_header. rewrite Hu.
  change (param_or (Some (c :: u)) []) with (c :: u). simpl negb. cbv iota.
  unfold mbind, M_bind, bind, try_catch, emit, ret, throw.
  destruct Hfail as [Htool|(md & Htool & Ht)]; rewrite Htool; [reflexivity|].
  destruct (title md) as [| |b|n|t] eqn:E; try reflexivity.
  exfalso. exact (Ht t eq_refl).
Qed.


(** The listener lets no error escape. *)
Lemma on_error_returns (sent : bool) (events : list bool) :
  on_error sent events = (trace (on_error sent events), Some tt).
Proof.
  revert sent. induction events as [|written events IH]; intros sent;
    [reflexivity|].
  simpl. unfold mbind, M_bind, bind, emit, trace.
  destruct (negb (sent || written)).
  - rewrite (IH true). reflexivity.
  - rewrite (IH (sent || written)). reflexivity.
Qed.

Lemma on_error_cons (sent written : bool) (events : list bool) :
  trace (on_error sent (written :: events))
  = ConsoleError (lit "Download error:")
    :: (if sent || written then []
        else [Status 500; Respond (Text (lit "Download failed"))])
    ++ trace (on_error true events)
  \/ sent || written = true /\
     trace (on_error sent (written :: events))
     = ConsoleError (lit "Download error:")
       :: trace (on_error (sent || written) events).
Proof.
  simpl. unfold mbind, M_bind, bind, emit, trace.
  destruct (sent || written) eqn:E; simpl.
  - right. split; [reflexivity|].
    rewrite (on_error_returns true events). reflexivity.
  - left. rewrite (on_error_returns true events). reflexivity.
Qed.

(** The listener logs and answers, and does nothing else. *)
Lemma on_error_quiet (sent : bool) (events : list bool) :
  forallb (fun e => negb (is_header e) && negb (is_tool_call e)
                    && negb (is_pipe e))
          (trace (on_error sent events)) = true.
Proof.
  revert sent. induction events as [|written events IH]; intros sent;
    [reflexivity|].
  destruct (on_error_cons sent written events) as [->|[_ ->]].
  - simpl. rewrite forallb_app, IH. destruct (sent || written); reflexivity.
  - simpl. apply IH.
Qed.



Lemma content_length_hint_shape (accepts : jstring -> value -> bool)
      (fs : list raw_format) (formatId : jstring) :
  content_length_hint accepts fs formatId
  = match Array.find (fun f => strict_eq (raw_format_id f) (VStr formatId)) fs
    with
    | Some target =>
        let size := logical_or (raw_filesize target)
                               (raw_filesize_approx target) in
        if truthy size then
          ([Header (lit "Content-Length") size],
           if accepts (lit "Content-Length") size then Some tt else None)
        else ([], Some tt)
    | None => ([], Some tt)
    end.
Proof.
  unfold content_length_hint, res_header.
  destruct (Array.find _ fs) as [target|]; [|reflexivity].
  cbv zeta. destruct (truthy _); [|reflexivity].
  unfold mbind, M_bind, bind, emit, ret, throw.
  destruct (accepts _ _); reflexivity.
Qed.


(** The hint calls [res.header] at most once, for [Content-Length], and
    nothing else. *)
Lemma content_length_hint_cases (accepts : jstring -> value -> bool)
      (fs : list raw_format) (formatId : jstring) :
  content_length_hint accepts fs formatId = ([], Some tt) \/
  exists v, truthy v = true /\
            content_length_hint accepts fs formatId
            = ([Header (lit "Content-Length") v],
               if accepts (lit "Content-Length") v then Some tt else None).
Proof.
  rewrite content_length_hint_shape.
  destruct (Array.find _ fs) as [target|]; [|left; reflexivity].
  cbv zeta. destruct (truthy _) eqn:E; [right | left; reflexivity].
  eexists. split; [exact E | reflexivity].
Qed.

Lemma content_length_hint_no_stream (accepts : jstring -> value -> bool)
      (fs : list raw_format) (formatId : jstring) :
  forallb (fun e => negb (is_exec_stream e))
          (trace (content_length_hint accepts fs formatId)) = true.
Proof.
  destruct (content_length_hint_cases accepts fs formatId)
    as [->|(v & _ & ->)]; reflexivity.
Qed.

(** What the download handler does once the metadata is there with a title
    that is a string: log, fetch, the [Content-Disposition] call, and when
    Node accepts that, the [Content-Length] hint, the stream, the pipe and
    the listener; whatever throws on the way ends in the [catch] block. *)
Lemma api_download_run (tool : list jstring -> option metadata)
      (accepts : jstring -> value -> bool)
      (errs : list jstring -> list bool) (q : query)
      (u : jstring) (md : metadata) (t : jstring) :
  q_url q = Some u -> u <> [] ->
  tool (info_args u) = Some md -> title md = VStr t ->
  api_download tool accepts errs q
  = ([ConsoleLog (lit "Preparing download for: " ++ u ++ lit " [Format: "
                  ++ param_or (q_format q) (lit "best") ++ lit "]");
      GetVideoInfo (info_args u);
      Header (lit "Content-Disposition")
             (disposition t (param_or (q_format q) (lit "best")))]
     ++ (if accepts (lit "Content-Disposition")
                    (disposition t (param_or (q_format q) (lit "best")))
         then
           match formats md with
           | Some fs =>
               let hint := content_length_hint
                             accepts fs (param_or (q_format q) (lit "best")) in
               trace hint
               ++ match snd hint with
                  | Some _ =>
                      ExecStream (download_args
                                    u (param_or (q_format q) (lit "best")))
                      :: PipeToResponse
                      :: trace (on_error
                                  false
                                  (errs (download_args
                                           u (param_or (q_format q)
                                                       (lit "best")))))
                  | None => preparation_failed
                  end
           | None => preparation_failed
           end
         else preparation_failed),
     Some tt).
Proof.
  intros Hu Hne Htool Htitle.
  destruct u as [|c u]; [congruence|].
  unfold api_download, getVideoInfo, res_header. rewrite Hu.
  simpl param_truthy.
  change (param_or (Some (c :: u)) []) with (c :: u). simpl negb. cbv iota.
  unfold mbind, M_bind, bind, try_catch, emit, ret, throw, trace.
  rewrite Htool, Htitle. fold (disposition t (param_or (q_format q) (lit "best"))).
  destruct (accepts _ _); [|reflexivity].
  destruct (formats md) as [fs|]; [|reflexivity].
  cbv zeta.
  destruct (content_length_hint_cases accepts fs
              (param_or (q_format q) (lit "best"))) as [->|(v & _ & ->)].
  - rewrite (on_error_returns false). reflexivity.
  - destruct (accepts _ v); [|reflexivity].
    rewrite (on_error_returns false). reflexivity.
Qed.

(** A download that does not get a title from the tool calls neither
    [res.header] nor [execStream]. *)
Lemma api_download_quiet (tool : list jstring -> option metadata)
      (accepts : jstring -> value -> bool)
      (errs : list jstring -> list bool) (q : query) :
  (exists u md t, q_url q = Some u /\ u <> [] /\
                  tool (info_args u) = Some md /\ title md = VStr t)
  \/ forallb (fun e => negb (is_header e) && negb (is_exec_stream e))
             (trace (api_download tool accepts errs q)) = true.
Proof.
  destruct (q_url q) as [[|c u]|] eqn:Hu;
    try (right; unfold api_download; rewrite Hu; reflexivity).
  destruct (tool (info_args (c :: u))) as [md|] eqn:Htool.
  - destruct (title md) as [| |b|n|t] eqn:Ht;
      try (right; unfold api_download, getVideoInfo; rewrite Hu;
           change (param_or (Some (c :: u)) []) with (c :: u); simpl negb;
           cbv iota;
           unfold mbind, M_bind, bind, try_catch, emit, ret, throw, trace;
           rewrite Htool, Ht; reflexivity).
    left. exists (c :: u), md, t. repeat split; auto; discriminate.
  - right. unfold api_download, getVideoInfo. rewrite Hu.
    change (param_or (Some (c :: u)) []) with (c :: u). simpl negb.
    cbv iota. unfold mbind, M_bind, bind, try_catch, emit, ret, throw, trace.
    rewrite Htool. reflexivity.
Qed.

(** An element that satisfies [P] sits at one place only of a list that has
    one such element. *)
Lemma split_at_unique {A} (P : A -> bool) (l1 : list A) (x : A)
      (r pre : list A) (y : A) (post : list A) :
  l1 ++ x :: r = pre ++ y :: post ->
  forallb (fun e => negb (P e)) l1 = true ->
  forallb (fun e => negb (P e)) r = true ->
  P y = true ->
  pre = l1 /\ y = x /\ post = r.
Proof.
  intros Heq Hl1 Hr Hy. revert pre Heq.
  induction l1 as [|a l1 IH]; intros [|p pre]; simpl in *.
  - intros [= -> ->]. auto.
  - intros [= -> ->]. rewrite forallb_app in Hr. simpl in Hr.
    rewrite Hy in Hr. simpl in Hr. rewrite andb_false_r in Hr. discriminate.
  - intros [= -> _]. rewrite Hy in Hl1. discriminate.
  - intros [= -> Heq]. apply andb_true_iff in Hl1 as [_ Hl1].
    destruct (IH Hl1 pre Heq) as (-> & -> & ->). auto.
Qed.

Lemma forallb_weaken {A} (P Q : A -> bool) (l : list A) :
  (forall x, P x = true -> Q x = true) ->
  forallb P l = true -> forallb Q l = true.
Proof.
  intros HPQ. rewrite !forallb_forall. intros H x Hx. apply HPQ, H, Hx.
Qed.

(** Where [execStream] is called in a download, and with what. *)
Lemma api_download_stream_call (tool : list jstring -> option metadata)
      (accepts : jstring -> value -> bool)
      (errs : list jstring -> list bool) (q : query)
      (pre post : list effect) (args : list jstring) :
  trace (api_download tool accepts errs q) = pre ++ ExecStream args :: post ->
  exists u md t fs,
    q_url q = Some u /\ u <> [] /\ tool (info_args u) = Some md /\
    title md = VStr t /\ formats md = Some fs /\
    accepts (lit "Content-Disposition")
            (disposition t (param_or (q_format q) (lit "best"))) = true /\
    snd (content_length_hint accepts fs (param_or (q_format q) (lit "best")))
    = Some tt /\
    args = download_args u (param_or (q_format q) (lit "best")) /\
    pre = [ConsoleLog (lit "Preparing download for: " ++ u ++ lit " [Format: "
                       ++ param_or (q_format q) (lit "best") ++ lit "]");
           GetVideoInfo (info_args u);
           Header (lit "Content-Disposition")
                  (disposition t (param_or (q_format q) (lit "best")))]
          ++ trace (content_length_hint
                      accepts fs (param_or (q_format q) (lit "best"))) /\
    post = PipeToResponse :: trace (on_error false (errs args)).
Proof.
  intros Heq.
  assert (Hin : In (ExecStream args) (trace (api_download tool accepts errs q)))
    by (rewrite Heq; apply in_elt).
  destruct (api_download_quiet tool accepts errs q)
    as [(u & md & t & Hu & Hne & Htool & Ht)|Hq].
  2:{ rewrite forallb_forall in Hq. apply Hq in Hin.
      rewrite andb_true_iff in Hin. destruct Hin as [_ Hin]. discriminate. }
  exists u, md, t.
  rewrite (api_download_run tool accepts errs q u md t Hu Hne Htool Ht)
    in Heq, Hin.
  unfold trace at 1 in Heq. unfold trace at 1 in Hin. cbn [fst] in Heq, Hin.
  assert (Hfail : forall l, In (ExecStream args) (l ++ preparation_failed) ->
                            forallb (fun e => negb (is_exec_stream e)) l = true
                            -> False).
  { intros l H Hl. apply in_app_or in H as [H|H].
    - rewrite forallb_forall in Hl. apply Hl in H. discriminate.
    - simpl in H. repeat (destruct H as [H|H]; [discriminate|]). exact H. }
  destruct (accepts (lit "Content-Disposition") _) eqn:Hcd;
    [|exfalso; exact (Hfail _ Hin eq_refl)].
  destruct (formats md) as [fs|] eqn:Hfs;
    [|exfalso; exact (Hfail _ Hin eq_refl)].
  exists fs. cbv zeta in Heq, Hin.
  pose proof (content_length_hint_no_stream
                accepts fs (param_or (q_format q) (lit "best"))) as Hns.
  destruct (snd (content_length_hint accepts fs
                   (param_or (q_format q) (lit "best")))) as [[]|] eqn:Hsnd.
  - rewrite app_assoc in Heq.
    eapply (split_at_unique is_exec_stream) in Heq as (-> & [= ->] & ->);
      [ | | | reflexivity].
    + repeat split; auto.
    + rewrite forallb_app. rewrite Hns. reflexivity.
    + simpl. eapply forallb_weaken; [|apply on_error_quiet].
      intros x Hx. rewrite !andb_true_iff in Hx. destruct Hx as [[_ Hx] _].
      destruct x; try reflexivity; discriminate.
  - exfalso. rewrite app_assoc in Hin. apply (Hfail _ Hin).
    rewrite forallb_app, Hns. reflexivity.
Qed.

(** The flags of an MP3 download do not occur in the arguments of a video
    download. *)
Lemma no_audio_flags_after_f (videoUrl sel : jstring) (l1 l2 : list jstring) :
  common_args videoUrl ++ [lit "-f"; sel] <> l1 ++ extract_audio_flags ++ l2.
Proof.
  unfold common_args, extract_audio_flags. intros H.
  do 10 (destruct l1 as [|? l1];
         [vm_compute in H; discriminate | simpl in H; injection H as _ H]).
  destruct l1; discriminate.
Qed.

(** ** The claims on the handlers *)

(** C4, as the code has it.  For every title the tool reports and every
    requested format, the file name the handler passes to [res.header] for
    [Content-Disposition], whatever Node and the stream do afterwards, is
    the title without the characters that are neither word characters nor
    white space nor hyphens, followed by ['.mp3'] exactly when the requested
    format is ['mp3'] and by ['.mp4'] otherwise; the title ['Foo: Bar/Baz!']
    gives the base name ['Foo BarBaz']. *)
Theorem C4_download_filename (tool : list jstring -> option metadata)
        (accepts : jstring -> value -> bool)
        (errs : list jstring -> list bool)
        (q : query) (u : jstring) (md : metadata) (t : jstring) :
  q_url q = Some u -> u <> [] ->
  tool (info_args u) = Some md -> title md = VStr t ->
  exists ext,
    Header (lit "Content-Disposition")
           (VStr (lit "attachment; filename=" ++ dquote
                  ++ (List.filter safe_char t ++ lit "." ++ ext) ++ dquote))
    ∈ trace (api_download tool accepts errs q) /\
    (param_or (q_format q) (lit "best") = lit "mp3" /\ ext = lit "mp3"
     \/ param_or (q_format q) (lit "best") <> lit "mp3" /\ ext = lit "mp4") /\
    List.filter safe_char (lit "Foo: Bar/Baz!") = lit "Foo BarBaz".
Proof.
  intros Hu Hne Htool Ht.
  exists (if bool_decide (param_or (q_format q) (lit "best") = lit "mp3")
          then lit "mp3" else lit "mp4").
  split; [|split; [|reflexivity]].
  - rewrite (api_download_run tool accepts errs q u md t) by assumption.
    unfold disposition, trace. cbn [fst].
    rewrite filename_of_filter, elem_of_app. left. right. right. left.
  - case_bool_decide; [left | right]; auto.
Qed.

(** The theorem on the title [Foo: Bar/Baz!] and the format [18]. *)
Lemma C4_download_filename_witness :
  exists ext,
    Header (lit "Content-Disposition")
           (VStr (lit "attachment; filename=" ++ dquote
                  ++ (List.filter safe_char (lit "Foo: Bar/Baz!") ++ lit "."
                      ++ ext) ++ dquote))
    ∈ trace (api_download (fun _ => Some (metadata_with formats_same_id))
                          node_accepts no_errors query_18) /\
    (param_or (q_format query_18) (lit "best") = lit "mp3" /\ ext = lit "mp3"
     \/ param_or (q_format query_18) (lit "best") <> lit "mp3"
        /\ ext = lit "mp4") /\
    List.filter safe_char (lit "Foo: Bar/Baz!") = lit "Foo BarBaz".
Proof.
  apply (C4_download_filename _ node_accepts no_errors query_18
                              (lit "https://example.org/v")
                              (metadata_with formats_same_id));
    [reflexivity | discriminate | reflexivity | reflexivity].
Defined.

(** C4 as stated fails on its example: the base name of ['Foo: Bar/Baz!'] is
    not ['Foo Bar Baz'], whatever the extension. *)
Lemma C4_counterexample :
  replace_global unsafe_char [] (lit "Foo: Bar/Baz!") <> lit "Foo Bar Baz" /\
  filename_of (lit "Foo: Bar/Baz!") true <> lit "Foo Bar Baz.mp3" /\
  filename_of (lit "Foo: Bar/Baz!") false <> lit "Foo Bar Baz.mp4".
Proof. repeat split; intros H; vm_compute in H; discriminate. Qed.

(** C5. The arguments of the streaming call contain the extract-audio flags
    [-x --audio-format mp3 --audio-quality 0] exactly when the requested
    format is ['mp3']; then they are the common arguments followed by these
    flags.  Otherwise the common arguments are followed by [-f] and the
    selector, which is ['bestvideo+bestaudio/best'] for the format ['best']
    and the format identifier followed by ['+bestaudio/best'] for any other.
    Whenever a download calls [execStream], these are the arguments of the
    call, for the URL and the format of the request; and the call is made
    when the metadata has a title and a format list and Node accepts the
    values of the headers the handler sets before. *)
Theorem C5_download_arguments (videoUrl formatId : jstring) :
  ((exists l1 l2,
       download_args videoUrl formatId = l1 ++ extract_audio_flags ++ l2)
   <-> formatId = lit "mp3") /\
  (formatId = lit "mp3" ->
   download_args videoUrl formatId
   = common_args videoUrl ++ extract_audio_flags) /\
  (formatId = lit "best" ->
   download_args videoUrl formatId
   = common_args videoUrl ++ [lit "-f"; lit "bestvideo+bestaudio/best"]) /\
  (formatId <> lit "mp3" -> formatId <> lit "best" ->
   download_args videoUrl formatId
   = common_args videoUrl ++ [lit "-f"; formatId ++ lit "+bestaudio/best"]) /\
  (forall tool accepts errs q args,
      ExecStream args ∈ trace (api_download tool accepts errs q) ->
      exists u, q_url q = Some u /\ u <> [] /\
                args = download_args u (param_or (q_format q) (lit "best"))) /\
  (forall tool accepts errs q md t fs,
      q_url q = Some videoUrl -> videoUrl <> [] ->
      tool (info_args videoUrl) = Some md -> title md = VStr t ->
      formats md = Some fs ->
      param_or (q_format q) (lit "best") = formatId ->
      accepts (lit "Content-Disposition") (disposition t formatId) = true ->
      (forall v, Header (lit "Content-Length") v
                 ∈ trace (content_length_hint accepts fs formatId) ->
                 accepts (lit "Content-Length") v = true) ->
      ExecStream (download_args videoUrl formatId)
      ∈ trace (api_download tool accepts errs q)).
Proof.
  assert (Hmp3 : formatId = lit "mp3" ->
                 download_args videoUrl formatId
                 = common_args videoUrl ++ extract_audio_flags).
  { intros ->. reflexivity. }
  split; [|split; [exact Hmp3|split; [|split; [|split]]]].
  - split.
    + intros (l1 & l2 & H). destruct (decide (formatId = lit "mp3")) as [|Hne];
        [assumption|].
      exfalso. unfold download_args in H.
      rewrite (bool_decide_false _ Hne) in H.
      exact (no_audio_flags_after_f _ _ _ _ H).
    + intros Heq. exists (common_args videoUrl), [].
      rewrite app_nil_r. auto.
  - intros ->. reflexivity.
  - intros Hne1 Hne2. unfold download_args.
    rewrite (bool_decide_false _ Hne1), (bool_decide_false _ Hne2).
    reflexivity.
  - intros tool accepts errs q args Hin.
    apply list_elem_of_split in Hin as (pre & post & Heq).
    apply api_download_stream_call in Heq
      as (u & md & t & fs & Hu & Hne & _ & _ & _ & _ & _ & -> & _).
    exists u. auto.
  - intros tool accepts errs q md t fs Hu Hne Htool Ht Hfs <- Hcd Hcl.
    rewrite (api_download_run tool accepts errs q videoUrl md t)
      by assumption.
    unfold trace at 1. cbn [fst]. rewrite Hcd, Hfs. cbv zeta.
    destruct (content_length_hint_cases accepts fs
                (param_or (q_format q) (lit "best")))
      as [E|(v & _ & E)]; rewrite E in Hcl |- *.
    + simpl. do 3 right. left.
    + rewrite (Hcl v) by (unfold trace; simpl; left).
      simpl. do 4 right. left.
Qed.

(** The theorem on the format [18]. *)
Lemma C5_download_arguments_witness :
  download_args (lit "https://example.org/v") (lit "18")
  = common_args (lit "https://example.org/v")
    ++ [lit "-f"; lit "18+bestaudio/best"].
Proof.
  apply (C5_download_arguments (lit "https://example.org/v") (lit "18"));
    discriminate.
Defined.

(** C7. A request to [/api/info] without a [url] parameter is answered with
    status 400, and the tool is not called. *)
Theorem C7_info_requires_url (tool : list jstring -> option metadata)
        (fmt : option jstring) :
  api_info tool {| q_url := None; q_format := fmt |}
  = ([Status 400; Respond (JsonError (lit "URL is required"))], Some tt) /\
  forallb (fun e => negb (is_tool_call e))
          (trace (api_info tool {| q_url := None; q_format := fmt |})) = true.
Proof. split; reflexivity. Qed.




(** ** The rate limiter *)

Section LimiterFacts.
Import Limiter.
Implicit Types (s : gmap jstring (Z * Z)) (r : request) (rs : list request).

Variable a : jstring.

(** The verdict on the hit number [n] of a window. *)
#[local] Abbreviation verdict_of_hits n :=
  (if n >? max then Answer 429 message else Next).

Lemma guard_unmounted s r : mounted (r_path r) = false -> guard s r = (s, Next).
Proof. unfold guard. intros ->. reflexivity. Qed.

Lemma guard_other_client s r :
  r_ip r <> a -> (guard s r).1 !! a = s !! a.
Proof.
  intros Hne. unfold guard, limiter, increment.
  destruct (mounted (r_path r)); [|reflexivity].
  destruct (s !! r_ip r) as [[hits reset]|]; [destruct (r_time r <? reset)|];
    simpl; apply lookup_insert_ne; assumption.
Qed.

(** A request that is not an API request of the client leaves the entry of
    the client as it is. *)
Lemma guard_other s r :
  api_request_of a r = false -> (guard s r).1 !! a = s !! a.
Proof.
  intros Ear. unfold api_request_of in Ear.
  apply andb_false_iff in Ear as [Hip|Hm].
  - apply guard_other_client. apply bool_decide_eq_false in Hip. exact Hip.
  - rewrite guard_unmounted by exact Hm. reflexivity.
Qed.

(** The first request of a client after the end of its window opens a new
    window and is passed on. *)
Lemma guard_after_window s r hits reset :
  mounted (r_path r) = true ->
  s !! r_ip r = Some (hits, reset) -> reset <= r_time r ->
  guard s r = (<[r_ip r := (1, r_time r + windowMs)]> s, Next).
Proof.
  intros Hm Hs Hle. unfold guard, limiter, increment. rewrite Hm, Hs.
  destruct (Z.ltb_spec (r_time r) reset); [lia | reflexivity].
Qed.

(** An API request of the client is counted in the stored window when that
    has not ended, and opens a window of 60 seconds otherwise. *)
Lemma guard_api s r :
  api_request_of a r = true ->
  exists R,
    guard s r = (<[a := (stored_hits s a R + 1, R)]> s,
                 verdict_of_hits (stored_hits s a R + 1)) /\
    ((exists hits, s !! a = Some (hits, R) /\ r_time r < R)
     \/ (R = r_time r + windowMs /\
         forall hits reset, s !! a = Some (hits, reset) -> reset <= r_time r)).
Proof.
  intros Ear. unfold api_request_of in Ear.
  apply andb_true_iff in Ear as [Hip Hm]. apply bool_decide_eq_true in Hip.
  unfold guard, limiter, increment, stored_hits. rewrite Hm, Hip.
  destruct (s !! a) as [[hits reset]|] eqn:Hs.
  - destruct (Z.ltb_spec (r_time r) reset) as [Hlt|Hge].
    + exists reset. rewrite Z.eqb_refl. split; [reflexivity|].
      left. exists hits. auto.
    + exists (r_time r + windowMs).
      destruct (Z.eqb_spec reset (r_time r + windowMs)) as [E|_];
        [unfold windowMs in E; lia|].
      split; [reflexivity|]. right. split; [reflexivity|].
      intros h' r' [= <- <-]. exact Hge.
  - exists (r_time r + windowMs). split; [reflexivity|]. right.
    split; [reflexivity | discriminate].
Qed.

Lemma verdicts_of_cons s r rs :
  verdicts_of a s (r :: rs)
  = (if api_request_of a r then [(guard s r).2] else [])
    ++ verdicts_of a (guard s r).1 rs.
Proof.
  unfold verdicts_of. simpl. destruct (guard s r) as [s' v]. simpl.
  destruct (api_request_of a r); reflexivity.
Qed.

Lemma windows_of_other s r rs :
  api_request_of a r = false ->
  windows_of a s (r :: rs) = windows_of a (guard s r).1 rs.
Proof. intros Ear. simpl. destruct (guard s r). rewrite Ear. reflexivity. Qed.

Lemma windows_of_api s r rs h R v :
  api_request_of a r = true -> guard s r = (<[a := (h, R)]> s, v) ->
  windows_of a s (r :: rs) = Counted R r v :: windows_of a (<[a := (h, R)]> s) rs.
Proof.
  intros Ear Hg. simpl. rewrite Hg, Ear, lookup_insert_eq. reflexivity.
Qed.

(** Induction on the requests, by what the guard does with the first. *)
Lemma windows_of_ind (P : gmap jstring (Z * Z) -> list request -> Prop) :
  (forall s, P s []) ->
  (forall s r rs,
      api_request_of a r = false ->
      (guard s r).1 !! a = s !! a ->
      windows_of a s (r :: rs) = windows_of a (guard s r).1 rs ->
      P (guard s r).1 rs -> P s (r :: rs)) ->
  (forall s r rs R,
      api_request_of a r = true ->
      guard s r = (<[a := (stored_hits s a R + 1, R)]> s,
                   verdict_of_hits (stored_hits s a R + 1)) ->
      ((exists hits, s !! a = Some (hits, R) /\ r_time r < R)
       \/ (R = r_time r + windowMs /\
           forall hits reset, s !! a = Some (hits, reset) ->
                              reset <= r_time r)) ->
      windows_of a s (r :: rs)
      = Counted R r (verdict_of_hits (stored_hits s a R + 1))
        :: windows_of a (<[a := (stored_hits s a R + 1, R)]> s) rs ->
      P (<[a := (stored_hits s a R + 1, R)]> s) rs -> P s (r :: rs)) ->
  forall rs s, P s rs.
Proof.
  intros Hnil Hother Hapi. induction rs as [|r rs IH]; intros s; [apply Hnil|].
  destruct (api_request_of a r) eqn:Ear.
  - destruct (guard_api s r Ear) as (R & Hg & Hcase).
    apply (Hapi s r rs R Ear Hg Hcase); [|apply IH].
    apply windows_of_api; assumption.
  - apply Hother; [exact Ear | apply guard_other, Ear
                  | apply windows_of_other, Ear | apply IH].
Qed.

(** The counted requests are the API requests of the client, with the
    verdicts of the guard. *)
Lemma windows_of_requests rs s :
  List.map c_request (windows_of a s rs) = List.filter (api_request_of a) rs.
Proof.
  revert rs s. apply windows_of_ind.
  - reflexivity.
  - intros s r rs Ear _ -> IH. simpl List.filter. rewrite Ear. exact IH.
  - intros s r rs R Ear _ _ -> IH. simpl. rewrite Ear, IH. reflexivity.
Qed.

Lemma windows_of_verdicts rs s :
  List.map c_verdict (windows_of a s rs) = verdicts_of a s rs.
Proof.
  revert rs s. apply windows_of_ind.
  - reflexivity.
  - intros s r rs Ear _ -> IH. rewrite verdicts_of_cons, Ear. exact IH.
  - intros s r rs R Ear Hg _ -> IH. rewrite verdicts_of_cons, Ear, Hg.
    simpl. rewrite IH. reflexivity.
Qed.

(** A request is counted in a window that has not ended when it arrives, and
    never in a window that ends before the stored one. *)
Lemma windows_of_open rs s :
  Forall (fun c => r_time (c_request c) < c_reset c /\
                   forall hits reset, s !! a = Some (hits, reset) ->
                                      reset <= c_reset c)
         (windows_of a s rs).
Proof.
  revert rs s. apply windows_of_ind.
  - constructor.
  - intros s r rs _ Hsame -> IH. rewrite Hsame in IH. exact IH.
  - intros s r rs R _ _ Hcase -> IH.
    assert (HR : r_time r < R /\
                 forall hits reset, s !! a = Some (hits, reset) -> reset <= R).
    { destruct Hcase as [(hits & Hs & Hlt)|[-> Hold]].
      - split; [exact Hlt|]. intros h' r' Hs'. rewrite Hs in Hs'.
        injection Hs' as _ <-. lia.
      - unfold windowMs. split; [lia|]. intros h' r' Hs'.
        specialize (Hold h' r' Hs'). lia. }
    constructor; [exact HR|].
    eapply Forall_impl; [exact IH|]. intros c [Hlt Hge]. split; [exact Hlt|].
    intros h' r' Hs'. specialize (Hge _ _ (lookup_insert_eq _ _ _)).
    destruct HR as [_ HR]. specialize (HR h' r' Hs'). lia.
Qed.

(** The first counted request either goes on with the stored window or
    opens one, after the stored one has ended. *)
Lemma windows_of_first rs s c :
  windows_of a s rs !! 0%nat = Some c ->
  (exists hits, s !! a = Some (hits, c_reset c))
  \/ (c_reset c = r_time (c_request c) + windowMs /\
      forall hits reset, s !! a = Some (hits, reset) ->
                         reset <= r_time (c_request c)).
Proof.
  revert rs s. apply (windows_of_ind (fun s rs =>
    windows_of a s rs !! 0%nat = Some c ->
    (exists hits, s !! a = Some (hits, c_reset c))
    \/ (c_reset c = r_time (c_request c) + windowMs /\
        forall hits reset, s !! a = Some (hits, reset) ->
                           reset <= r_time (c_request c)))).
  - intros s H. discriminate H.
  - intros s r rs _ Hsame -> IH H. rewrite Hsame in IH. exact (IH H).
  - intros s r rs R _ _ Hcase -> _ [= <-]. simpl.
    destruct Hcase as [(hits & Hs & _)|Hnew]; [left; eauto | right; exact Hnew].
Qed.

(** Windows follow one another: the next counted request is in the same
    window, or it arrives when that has ended and opens a window of 60
    seconds. *)
Lemma windows_of_next rs s (i : nat) c c' :
  windows_of a s rs !! i = Some c -> windows_of a s rs !! S i = Some c' ->
  c_reset c' = c_reset c
  \/ (c_reset c <= r_time (c_request c') /\
      c_reset c' = r_time (c_request c') + windowMs).
Proof.
  revert rs s i. apply (windows_of_ind (fun s rs =>
    forall i : nat,
      windows_of a s rs !! i = Some c -> windows_of a s rs !! S i = Some c' ->
      c_reset c' = c_reset c
      \/ (c_reset c <= r_time (c_request c') /\
          c_reset c' = r_time (c_request c') + windowMs))).
  - intros s i H. discriminate H.
  - intros s r rs _ _ -> IH. exact IH.
  - intros s r rs R _ _ _ -> IH [|i].
    + intros [= <-] H'. simpl in H' |- *.
      apply windows_of_first in H' as [(hits & Hs)|[Hnew Hold]].
      * rewrite lookup_insert_eq in Hs. injection Hs as _ <-. left. reflexivity.
      * right. split; [|exact Hnew].
        exact (Hold _ _ (lookup_insert_eq _ _ _)).
    + intros H H'. exact (IH i H H').
Qed.

(** In a window the hits are numbered on from the count of the store. *)
Lemma window_verdicts rs s R (i : nat) c :
  window R (windows_of a s rs) !! i = Some c ->
  c_verdict c = verdict_of_hits (stored_hits s a R + 1 + Z.of_nat i).
Proof.
  revert rs s i. apply (windows_of_ind (fun s rs =>
    forall i : nat,
      window R (windows_of a s rs) !! i = Some c ->
      c_verdict c = verdict_of_hits (stored_hits s a R + 1 + Z.of_nat i))).
  - intros s i H. discriminate H.
  - intros s r rs _ Hsame -> IH i H. specialize (IH i H).
    unfold stored_hits in IH |- *. rewrite Hsame in IH. exact IH.
  - intros s r rs R0 _ _ Hcase -> IH i. unfold window. simpl List.filter.
    fold (window R (windows_of a (<[a := (stored_hits s a R0 + 1, R0)]> s) rs)).
    assert (Hafter : stored_hits (<[a := (stored_hits s a R0 + 1, R0)]> s) a R
                     = if R0 =? R then stored_hits s a R0 + 1 else 0).
    { unfold stored_hits at 1. rewrite lookup_insert_eq. reflexivity. }
    destruct (Z.eqb_spec R0 R) as [->|Hne].
    + destruct i as [|i].
      * intros [= <-]. simpl. rewrite Z.add_0_r. reflexivity.
      * intros H. rewrite (IH i H), Hafter.
        replace (stored_hits s a R + 1 + 1 + Z.of_nat i)
          with (stored_hits s a R + 1 + Z.of_nat (S i)) by lia.
        reflexivity.
    + intros H. rewrite (IH i H), Hafter.
      replace (stored_hits s a R) with 0; [reflexivity|].
      unfold stored_hits. destruct (s !! a) as [[hits reset]|] eqn:Hs;
        [|reflexivity].
      destruct (Z.eqb_spec reset R) as [->|_]; [|reflexivity].
      exfalso.
      assert (Hin : c ∈ windows_of a (<[a := (stored_hits s a R0 + 1, R0)]> s) rs).
      { apply list_elem_of_lookup_2 in H. unfold window in H.
        apply list_elem_of_In, filter_In in H as [H _].
        apply list_elem_of_In, H. }
      assert (HcR : c_reset c = R).
      { apply list_elem_of_lookup_2 in H. unfold window in H.
        apply list_elem_of_In, filter_In in H as [_ H]. lia. }
      pose proof (windows_of_open rs (<[a := (stored_hits s a R0 + 1, R0)]> s))
        as Hopen.
      rewrite Forall_forall in Hopen. apply Hopen in Hin as [_ Hge].
      specialize (Hge _ _ (lookup_insert_eq _ _ _)).
      destruct Hcase as [(hits' & Hs' & _)|[-> Hold]].
      * congruence.
      * specialize (Hold _ _ eq_refl). unfold windowMs in Hge. lia.
Qed.

(** When the requests arrive in the order of their times, a window holds the
    requests of the 60 seconds from the request that opened it. *)
Lemma windows_of_interval rs s :
  StronglySorted (fun r r' => r_time r <= r_time r') rs ->
  Forall (fun c => c_reset c - windowMs <= r_time (c_request c)
                   \/ exists hits, s !! a = Some (hits, c_reset c))
         (windows_of a s rs).
Proof.
  revert rs s. apply (windows_of_ind (fun s rs =>
    StronglySorted (fun r r' => r_time r <= r_time r') rs ->
    Forall (fun c => c_reset c - windowMs <= r_time (c_request c)
                     \/ exists hits, s !! a = Some (hits, c_reset c))
           (windows_of a s rs))).
  - constructor.
  - intros s r rs _ Hsame -> IH Hsorted.
    apply StronglySorted_inv in Hsorted as [Hsorted _].
    specialize (IH Hsorted). rewrite Hsame in IH. exact IH.
  - intros s r rs R _ _ Hcase Heq IH Hsorted.
    apply StronglySorted_inv in Hsorted as [Hsorted Hle].
    specialize (IH Hsorted).
    pose proof (windows_of_requests rs (<[a := (stored_hits s a R + 1, R)]> s))
      as Hreq.
    rewrite Heq. constructor.
    + simpl. destruct Hcase as [(hits & Hs & _)|[-> _]]; [right; eauto|].
      left. lia.
    + rewrite Forall_forall in IH |- *. intros c Hc.
      destruct (IH c Hc) as [H|(hits & Hs)]; [left; exact H|].
      rewrite lookup_insert_eq in Hs. injection Hs as _ <-.
      destruct Hcase as [(hits' & Hs' & _)|[HR _]]; [right; eauto|].
      left. rewrite HR.
      assert (Hin : c_request c ∈ rs).
      { apply list_elem_of_In.
        assert (H : In (c_request c) (List.filter (api_request_of a) rs)).
        { rewrite <- Hreq. apply in_map, list_elem_of_In, Hc. }
        apply filter_In in H as [H _]. exact H. }
      rewrite List.Forall_forall in Hle.
      apply list_elem_of_In, Hle in Hin. lia.
Qed.

(** A list whose entries are given by their position. *)
Lemma list_by_position {A} (l : list A) (f : nat -> A) :
  (forall (i : nat) x, l !! i = Some x -> x = f i) ->
  l = List.map f (seq 0 (length l)).
Proof.
  intros H. apply list_eq. intros i.
  destruct (l !! i) as [x|] eqn:E.
  - symmetry. apply list_lookup_fmap_Some. exists i. split; [exact (H i x E)|].
    apply lookup_seq. split; [reflexivity|].
    apply lookup_lt_Some in E. exact E.
  - symmetry. apply lookup_ge_None. rewrite length_map, length_seq.
    apply lookup_ge_None in E. exact E.
Qed.

Lemma passed_on_bound (h : Z) (n start : nat) :
  0 <= h ->
  (length (List.filter (fun v => bool_decide (v = Next))
             (List.map (fun k => verdict_of_hits (h + 1 + Z.of_nat k))
                       (seq start n)))
   <= 10 - start)%nat.
Proof.
  intros Hh. revert start. induction n as [|n IH]; intros start; simpl; [lia|].
  specialize (IH (S start)).
  destruct (Z.gtb_spec (h + 1 + Z.of_nat start) max) as [Hgt|Hle]; simpl.
  - unfold max in Hgt. lia.
  - unfold max in Hle. lia.
Qed.

(** At most 10 requests of a window are passed on. *)
Lemma window_passed_on rs s R :
  0 <= stored_hits s a R ->
  (length (List.filter passed_on (window R (windows_of a s rs))) <= 10)%nat.
Proof.
  intros Hh.
  assert (Hv : List.map c_verdict (window R (windows_of a s rs))
               = List.map (fun k => verdict_of_hits
                                      (stored_hits s a R + 1 + Z.of_nat k))
                          (seq 0 (length (window R (windows_of a s rs))))).
  { rewrite <- (length_map c_verdict). apply list_by_position.
    intros i v Hi. apply list_lookup_fmap_Some in Hi as (c & -> & Hc).
    exact (window_verdicts rs s R i c Hc). }
  pose proof (passed_on_bound (stored_hits s a R)
                (length (window R (windows_of a s rs))) 0 Hh) as Hb.
  rewrite <- Hv in Hb.
  replace (length (List.filter passed_on (window R (windows_of a s rs))))
    with (length (List.filter (fun v => bool_decide (v = Next))
                    (List.map c_verdict (window R (windows_of a s rs)))));
    [lia|].
  generalize (window R (windows_of a s rs)). intros l.
  induction l as [|c l IH]; [reflexivity|].
  simpl. unfold passed_on at 1.
  destruct (bool_decide (c_verdict c = Next)); simpl; rewrite IH; reflexivity.
Qed.

Lemma serve_unmounted rs :
  forall s r v, (r, v) ∈ serve s rs -> mounted (r_path r) = false -> v = Next.
Proof.
  induction rs as [|r0 rs IH]; intros s r v Hin Hm; simpl in Hin.
  - inversion Hin.
  - destruct (guard s r0) as [s' v0] eqn:Eg.
    apply elem_of_cons in Hin as [[= -> ->]|Hin]; [|eapply IH; eassumption].
    rewrite guard_unmounted in Eg by exact Hm. congruence.
Qed.

End LimiterFacts.

(** C6.  Take any client, any state of the limiter and any sequence of
    requests, of this and of other clients.  The limiter counts every API
    request of the client in a window that has not ended when the request
    arrives; the next API request of the client is counted in the same
    window, or it arrives when that window has ended and opens a window of
    60 seconds; so with requests that arrive in the order of their times a
    window holds the API requests of the client of the 60 seconds from the
    one that opened it.  In every window the request number [k] is passed on
    to the handlers when the hits of the window, those of the state
    included, are at most 10 with it, and is answered by the limiter itself
    with status 429 and the rate-limit message otherwise, without [next()]
    being called: in a window opened by the sequence the first 10 requests
    are passed on, the 11th and every later one are not, and at most 10
    reach the handlers.  Requests outside the API namespace,
    such as the redirect route and the static files, are always passed on
    and leave the counters as they are. *)
Theorem C6_ten_requests_per_window (a : jstring) (s : gmap jstring (Z * Z))
        (rs : list Limiter.request) :
  List.map Limiter.c_request (Limiter.windows_of a s rs)
  = List.filter (Limiter.api_request_of a) rs /\
  List.map Limiter.c_verdict (Limiter.windows_of a s rs)
  = Limiter.verdicts_of a s rs /\
  Forall (fun c => Limiter.r_time (Limiter.c_request c) < Limiter.c_reset c)
         (Limiter.windows_of a s rs) /\
  (forall (i : nat) c c',
      Limiter.windows_of a s rs !! i = Some c ->
      Limiter.windows_of a s rs !! S i = Some c' ->
      Limiter.c_reset c' = Limiter.c_reset c
      \/ (Limiter.c_reset c <= Limiter.r_time (Limiter.c_request c') /\
          Limiter.c_reset c'
          = Limiter.r_time (Limiter.c_request c') + 60 * 1000)) /\
  (forall c,
      Limiter.windows_of a s rs !! 0%nat = Some c ->
      (exists hits, s !! a = Some (hits, Limiter.c_reset c))
      \/ (Limiter.c_reset c
          = Limiter.r_time (Limiter.c_request c) + 60 * 1000 /\
          forall hits reset, s !! a = Some (hits, reset) ->
                             reset <= Limiter.r_time (Limiter.c_request c))) /\
  (StronglySorted (fun r r' => Limiter.r_time r <= Limiter.r_time r') rs ->
   Forall (fun c =>
             Limiter.c_reset c - 60 * 1000
             <= Limiter.r_time (Limiter.c_request c) < Limiter.c_reset c
             \/ exists hits, s !! a = Some (hits, Limiter.c_reset c))
          (Limiter.windows_of a s rs)) /\
  (forall R (i : nat) c,
      Limiter.window R (Limiter.windows_of a s rs) !! i = Some c ->
      Limiter.c_verdict c
      = if bool_decide (Limiter.stored_hits s a R + Z.of_nat i < 10)
        then Limiter.Next else Limiter.Answer 429 Limiter.message) /\
  (forall R, 0 <= Limiter.stored_hits s a R ->
             (length (List.filter Limiter.passed_on
                        (Limiter.window R (Limiter.windows_of a s rs)))
              <= 10)%nat) /\
  (forall r v, (r, v) ∈ Limiter.serve s rs ->
               Limiter.mounted (Limiter.r_path r) = false -> v = Limiter.Next) /\
  (forall s' r, Limiter.mounted (Limiter.r_path r) = false ->
                Limiter.guard s' r = (s', Limiter.Next)) /\
  Limiter.mounted (lit "/r") = false /\
  Limiter.mounted (lit "/index.html") = false.
Proof.
  split; [apply windows_of_requests|].
  split; [apply windows_of_verdicts|].
  split.
  { eapply Forall_impl; [apply windows_of_open|]. intros c [H _]. exact H. }
  split; [apply windows_of_next|].
  split; [apply windows_of_first|].
  split.
  { intros Hsorted. pose proof (windows_of_interval a rs s Hsorted) as Hlow.
    pose proof (windows_of_open a rs s) as Hup.
    rewrite Forall_forall in Hlow, Hup |- *. intros c Hc.
    destruct (Hlow c Hc) as [H|H]; [left | right; exact H].
    destruct (Hup c Hc) as [H' _]. unfold Limiter.windowMs in H. lia. }
  split.
  { intros R i c Hc. rewrite (window_verdicts a rs s R i c Hc).
    unfold Limiter.max.
    case_bool_decide;
      destruct (Z.gtb_spec (Limiter.stored_hits s a R + 1 + Z.of_nat i) 10);
      try reflexivity; lia. }
  split; [apply window_passed_on|].
  split; [apply serve_unmounted|].
  split; [intros s' r; apply guard_unmounted|].
  split; reflexivity.
Qed.

(** The theorem on a burst of twelve API requests of one client, followed by
    two more after the window has ended: the first ten and the last two are
    passed on. *)
Lemma C6_ten_requests_per_window_witness :
  (length (List.filter Limiter.passed_on
             (Limiter.window 61000 (Limiter.windows_of client_a ∅ two_windows)))
   <= 10)%nat /\
  Limiter.verdicts_of client_a ∅ two_windows
  = replicate 10 Limiter.Next
    ++ replicate 2 (Limiter.Answer 429 Limiter.message)
    ++ replicate 2 Limiter.Next /\
  List.map Limiter.c_reset (Limiter.windows_of client_a ∅ two_windows)
  = replicate 12 61000 ++ replicate 2 121000.
Proof.
  split; [|split; vm_compute; reflexivity].
  apply (C6_ten_requests_per_window client_a ∅ two_windows).
  unfold Limiter.stored_hits. rewrite lookup_empty. lia.
Defined.

(** * Further properties of the program *)

(** ** The format pipeline *)

Lemma filter_from_first_seen (l pre : list format) :
  Array.filter_from first_of_pair (pre ++ l) (Z.of_nat (length pre)) l
  = first_seen pre l.
Proof.
  revert pre. induction l as [|v l IH]; intros pre; simpl; [reflexivity|].
  specialize (IH (pre ++ [v])).
  rewrite <- app_assoc, length_app in IH. simpl in IH.
  replace (Z.of_nat (length pre + 1)) with (Z.of_nat (length pre) + 1) in IH
    by lia.
  rewrite first_of_pair_spec, IH.
  destruct (existsb (same_pair v) pre); reflexivity.
Qed.

(** X1. The index test of the deduplication filter (an entry is kept when
    [findIndex] of its pair is its own index) computes what one pass that
    keeps an entry unless its pair was seen before computes. *)
Theorem dedup_keeps_first_seen (raw : list raw_format) :
  deduplicated raw = first_seen [] (List.map present (video_formats raw)).
Proof.
  unfold deduplicated, Array.filter3.
  apply (filter_from_first_seen (List.map present (video_formats raw)) []).
Qed.

Lemma first_seen_app (l1 l2 seen : list format) :
  first_seen seen (l1 ++ l2) = first_seen seen l1 ++ first_seen (seen ++ l1) l2.
Proof.
  revert seen. induction l1 as [|v l1 IH]; intros seen; simpl.
  - rewrite app_nil_r. reflexivity.
  - rewrite IH, <- app_assoc. simpl.
    destruct (existsb (same_pair v) seen); reflexivity.
Qed.

Lemma first_seen_all_seen (l seen : list format) :
  Forall (fun v => In (pair_of v) (List.map pair_of seen)) l ->
  first_seen seen l = [].
Proof.
  revert seen. induction l as [|v l IH]; intros seen Hall; simpl;
    [reflexivity|].
  apply Forall_cons in Hall as [Hv Hl].
  apply existsb_same_pair_true in Hv. rewrite Hv. apply IH.
  eapply Forall_impl; [exact Hl|]. simpl. intros x.
  rewrite map_app, in_app_iff. auto.
Qed.

(** X2. Formats appended to the raw list change nothing in the answer when
    each of them is dropped by the video filter or has the pair of a video
    format of the list. *)
Theorem later_duplicates_ignored (raw extra : list raw_format) :
  Forall (fun f => is_video f = true ->
                   In (pair_of (present f))
                      (List.map pair_of (List.map present (video_formats raw))))
         extra ->
  select_formats (Some (raw ++ extra)) = select_formats (Some raw).
Proof.
  intros Hextra.
  assert (Hd : deduplicated (raw ++ extra) = deduplicated raw);
    [|unfold select_formats, video_list; rewrite Hd; reflexivity].
  rewrite !dedup_keeps_first_seen. unfold video_formats, Array.filter.
  rewrite List.filter_app, map_app, first_seen_app. simpl.
  rewrite (first_seen_all_seen
             (List.map present (List.filter is_video extra))
             (List.map present (List.filter is_video raw)));
    [apply app_nil_r|].
  apply Forall_forall. intros e He.
  apply list_elem_of_In, in_map_iff in He as (f & <- & Hf).
  apply filter_In in Hf as [Hin Hv].
  rewrite Forall_forall in Hextra. apply Hextra; [|exact Hv].
  apply list_elem_of_In. exact Hin.
Qed.

(** The theorem on a list to which its own formats are appended. *)
Lemma later_duplicates_ignored_witness :
  select_formats (Some (formats_nine ++ formats_nine))
  = select_formats (Some formats_nine).
Proof.
  apply later_duplicates_ignored. apply Forall_forall. intros f Hf Hv.
  apply in_map, in_map. unfold video_formats, Array.filter.
  apply filter_In. split; [apply list_elem_of_In|]; assumption.
Defined.

Lemma deduplicated_pairs (raw : list raw_format) :
  Permutation (List.map pair_of (deduplicated raw))
    (remove_dups (List.map pair_of (List.map present (video_formats raw)))).
Proof.
  destruct (deduplicated_spec raw) as (Hnd & Hfirst & Hall).
  apply NoDup_Permutation; [exact Hnd | apply NoDup_remove_dups|].
  intros x. rewrite elem_of_remove_dups. split.
  - intros Hx. apply list_elem_of_In, in_map_iff in Hx as (e & <- & He).
    rewrite Forall_forall in Hfirst.
    destruct (Hfirst e) as (l1 & l2 & Hsplit & _);
      [apply list_elem_of_In; exact He|].
    apply list_elem_of_In, in_map. rewrite Hsplit. apply in_elt.
  - intros Hx. apply list_elem_of_In, in_map_iff in Hx as (v & <- & Hv).
    rewrite Forall_forall in Hall. apply list_elem_of_In, Hall.
    apply list_elem_of_In. exact Hv.
Qed.

(** X3. The answer lists the MP3 entry and one entry for each different
    (resolution, extension) pair of the video formats, up to 8 of them. *)
Theorem select_formats_length (raw : list raw_format) :
  length (select_formats (Some raw))
  = S (Nat.min 8 (length (remove_dups
                            (List.map pair_of
                               (List.map present (video_formats raw)))))).
Proof.
  simpl. f_equal. destruct (video_list_perm_take raw) as (s & Hp & _ & ->).
  rewrite length_take, Hp, <- (deduplicated_pairs raw), length_map.
  reflexivity.
Qed.

Lemma StronglySorted_across {A} (R : A -> A -> Prop) (l1 l2 : list A)
      (x y : A) :
  StronglySorted R (l1 ++ l2) -> x ∈ l1 -> y ∈ l2 -> R x y.
Proof.
  induction l1 as [|a l1 IH]; simpl; intros Hs Hx Hy; [inversion Hx|].
  apply StronglySorted_inv in Hs as [Hs Ha].
  apply elem_of_cons in Hx as [->|Hx]; [|apply IH; assumption].
  rewrite Forall_forall in Ha. apply Ha, elem_of_app. right. exact Hy.
Qed.

(** X4. The cap of 8 removes the lowest resolutions: an entry that survives
    the deduplication and is not in the answer has a resolution number that
    is at most the one of every video entry of the answer. *)
Theorem cap_keeps_highest (raw : list raw_format) (kept dropped : format) :
  kept ∈ video_list raw ->
  dropped ∈ deduplicated raw ->
  dropped ∉ video_list raw ->
  resolution_key dropped <= resolution_key kept.
Proof.
  intros Hk Hd Hnot.
  destruct (video_list_perm_take raw) as (s & Hp & Hs & Heq).
  rewrite Heq in Hk, Hnot. rewrite <- Hp in Hd.
  rewrite <- (take_drop 8 s) in Hd, Hs.
  apply elem_of_app in Hd as [Hd|Hd]; [contradiction|].
  exact (StronglySorted_across _ _ _ _ _ Hs Hk Hd).
Qed.

(** The theorem on nine formats: the one of width 256 is cut, the one of
    width 426 stays. *)
Lemma cap_keeps_highest_witness :
  resolution_key
    (present (mk_raw "160" "mp4" "256x144" VUndefined (VNum 144) "avc1" VNull
                     VNull))
  <= resolution_key
       (present (mk_raw "133" "mp4" "426x240" VUndefined (VNum 240) "avc1"
                        VNull VNull)).
Proof.
  apply (cap_keeps_highest formats_nine).
  - vm_compute. do 7 right. left.
  - vm_compute. left.
  - vm_compute. intros H.
    repeat (apply elem_of_cons in H as [H|H]; [discriminate|]).
    inversion H.
Defined.

Lemma filter_take_prefix {A} (p : A -> bool) (n : nat) (l : list A) :
  List.filter p (take n l) `prefix_of` List.filter p l.
Proof.
  exists (List.filter p (drop n l)).
  rewrite <- List.filter_app, take_drop. reflexivity.
Qed.

(** X5. The sort is stable and the cap cuts at the end, so the video entries
    with one resolution number are listed in the order of the input. *)
Theorem equal_resolutions_keep_input_order (raw : list raw_format) (k : Z) :
  List.filter (fun e => resolution_key e =? k) (video_list raw)
  `prefix_of` List.filter (fun e => resolution_key e =? k) (deduplicated raw).
Proof.
  unfold video_list, Array.slice0. rewrite sort_by_resolution.
  rewrite <- (sort_stable resolution_key k (deduplicated raw)).
  apply filter_take_prefix.
Qed.

Lemma present_label_truthy (f : raw_format) :
  truthy (quality_label (present f)) = true.
Proof.
  simpl. unfold logical_or.
  destruct (truthy (raw_format_note f)) eqn:E; [exact E|].
  simpl. destruct (ToString (raw_height f)); reflexivity.
Qed.

(** X6. Every entry of the answer has a quality label that is not empty
    (nor any other falsy value). *)
Theorem labels_never_empty (fs : option (list raw_format)) :
  Forall (fun e => truthy (quality_label e) = true) (select_formats fs).
Proof.
  rewrite select_formats_cons. constructor; [reflexivity|].
  apply Forall_forall. intros e He.
  apply video_list_subseteq in He.
  destruct (deduplicated_spec (default [] fs)) as (_ & Hfirst & _).
  rewrite Forall_forall in Hfirst.
  destruct (Hfirst e He) as (l1 & l2 & Hsplit & _).
  assert (Hin : In e (List.map present (video_formats (default [] fs))))
    by (rewrite Hsplit; apply in_elt).
  apply in_map_iff in Hin as (f & <- & _). apply present_label_truthy.
Qed.

(** ** Reading a number back with [parseInt] *)

Lemma lit_String (c : ascii) (s : string) :
  lit (String c s) = N_of_ascii c :: lit s.
Proof. reflexivity. Qed.

Lemma radix_prefix_stops (rest : jstring) :
  no_digit_ahead rest = true -> radix_prefix 10 rest = [].
Proof.
  destruct rest as [|c rest]; [reflexivity|]. simpl.
  unfold radix_digit, digit_value. intros Hc.
  apply negb_true_iff in Hc. rewrite Hc.
  destruct ((97 <=? c) && (c <=? 122))%N eqn:E1.
  - apply andb_true_iff in E1 as [H1 H2]. apply N.leb_le in H1.
    destruct (Z.ltb_spec (Z.of_N (c - 97 + 10)) 10); [lia | reflexivity].
  - destruct ((65 <=? c) && (c <=? 90))%N eqn:E2; [|reflexivity].
    apply andb_true_iff in E2 as [H1 H2]. apply N.leb_le in H1.
    destruct (Z.ltb_spec (Z.of_N (c - 65 + 10)) 10); [lia | reflexivity].
Qed.

(** The digits [parseInt] reads from a printed numeral are its digits. *)
Lemma radix_prefix_numeral (d : Decimal.uint) (rest : jstring) :
  no_digit_ahead rest = true ->
  radix_prefix 10 (lit (NilEmpty.string_of_uint d) ++ rest) = uint_digits d.
Proof.
  intros Hrest. induction d; simpl NilEmpty.string_of_uint;
    [apply radix_prefix_stops, Hrest | ..];
    rewrite lit_String; simpl; rewrite IHd; reflexivity.
Qed.

Lemma math_int_acc (d : Decimal.uint) (acc : positive) :
  fold_left (fun a x => a * 10 + x) (uint_digits d) (Z.pos acc)
  = Z.pos (Pos.of_uint_acc d acc).
Proof.
  revert acc. induction d; intros acc; simpl; [reflexivity | ..];
    rewrite <- IHd; f_equal; lia.
Qed.

Lemma math_int_numeral (d : Decimal.uint) :
  math_int 10 (uint_digits d) = Z.of_N (Pos.of_uint d).
Proof.
  unfold math_int. induction d; simpl; [reflexivity | exact IHd | ..];
    apply math_int_acc.
Qed.

(** The numeral of a positive number starts with a digit from 1 to 9. *)
Lemma to_uint_no_leading_zero (p : positive) (d : Decimal.uint) :
  Pos.to_uint p <> Decimal.D0 d.
Proof.
  intros H.
  pose proof (DecimalPos.Unsigned.to_of (Pos.to_uint p)) as Hn.
  rewrite DecimalPos.Unsigned.of_to in Hn. simpl in Hn.
  rewrite H in Hn at 2. unfold Decimal.unorm in Hn.
  rewrite DecimalFacts.nzhead_D0 in Hn.
  destruct (Decimal.nzhead d) eqn:E.
  - rewrite H in Hn. injection Hn as ->.
    apply (DecimalPos.Unsigned.to_uint_nonzero p). exact H.
  - apply (DecimalFacts.nzhead_nonzero (Decimal.D0 d) d).
    rewrite DecimalFacts.nzhead_D0, E, <- Hn. exact H.
  - pose proof (DecimalFacts.nzhead_nonzero d d) as Hnz. rewrite E in Hnz.
    rewrite Hn in H. discriminate.
  - rewrite Hn in H. discriminate.
  - rewrite Hn in H. discriminate.
  - rewrite Hn in H. discriminate.
  - rewrite Hn in H. discriminate.
  - rewrite Hn in H. discriminate.
  - rewrite Hn in H. discriminate.
  - rewrite Hn in H. discriminate.
  - rewrite Hn in H. discriminate.
Qed.

Lemma parseInt_numeral (d : Decimal.uint) (rest : jstring) :
  d <> Decimal.Nil -> (forall d', d <> Decimal.D0 d') ->
  no_digit_ahead rest = true ->
  parseInt (VStr (lit (NilEmpty.string_of_uint d) ++ rest))
  = to_double (Z.of_N (Pos.of_uint d)).
Proof.
  intros Hnil Hzero Hrest.
  rewrite <- math_int_numeral.
  destruct d; [congruence | exfalso; eapply Hzero; reflexivity | ..];
    unfold parseInt, ToString; cbn [NilEmpty.string_of_uint];
    rewrite lit_String; simpl;
    rewrite (radix_prefix_numeral d rest Hrest);
    f_equal;
    match goal with
    | |- context [math_int 10 (?k :: ?l)] =>
        destruct (math_int 10 (k :: l)); reflexivity
    end.
Qed.

(** X7. The number the sort compares is the one the resolution starts with:
    for a resolution that is a positive decimal number below 2^53 followed
    by anything but a digit, as in the width-x-height strings of yt-dlp, it
    is that number. *)
Theorem resolution_key_is_leading_number (e : format) (p : positive)
        (rest : jstring) :
  resolution e = VStr (ToString (VNum (Z.pos p)) ++ rest) ->
  Z.pos p < 2 ^ 53 ->
  no_digit_ahead rest = true ->
  resolution_key e = Z.pos p.
Proof.
  intros He Hp Hrest. unfold resolution_key, resolution_number. rewrite He.
  unfold ToString.
  destruct (Z.ltb_spec (Z.abs (Z.pos p)) (2 ^ 53)) as [_|Hge];
    [|simpl in Hge; lia].
  change (decimal (Z.pos p))
    with (lit (NilZero.string_of_uint (Pos.to_uint p))).
  assert (Hs : NilZero.string_of_uint (Pos.to_uint p)
               = NilEmpty.string_of_uint (Pos.to_uint p)).
  { destruct (Pos.to_uint p) eqn:E; try reflexivity.
    exfalso. exact (DecimalPos.Unsigned.to_uint_nonnil p E). }
  rewrite Hs, parseInt_numeral.
  - rewrite DecimalPos.Unsigned.of_to.
    change (Z.of_N (N.pos p)) with (Z.pos p).
    rewrite to_double_small by (simpl; exact Hp). reflexivity.
  - apply DecimalPos.Unsigned.to_uint_nonnil.
  - intros d'. apply to_uint_no_leading_zero.
  - exact Hrest.
Qed.

(** The theorem on the resolution [1920x1080]. *)
Lemma resolution_key_is_leading_number_witness :
  resolution_key
    (present (mk_raw "137" "mp4" "1920x1080" VUndefined (VNum 1080) "avc1"
                     VNull VNull)) = 1920.
Proof.
  apply (resolution_key_is_leading_number _ 1920 (lit "x1080"));
    reflexivity.
Defined.

(** ** The two API handlers *)

(** X8. A request to [/api/info] whose [url] parameter is missing or empty
    is answered with status 400 and the JSON error, and nothing else
    happens. *)
Theorem info_rejects_empty_url (tool : list jstring -> option metadata)
        (q : query) :
  param_truthy (q_url q) = false ->
  api_info tool q
  = ([Status 400; Respond (JsonError (lit "URL is required"))], Some tt).
Proof. apply api_info_no_url. Qed.

(** The theorem on the request [/api/info?url=]. *)
Lemma info_rejects_empty_url_witness :
  api_info (fun _ => Some (metadata_with formats_nine))
           {| q_url := Some []; q_format := None |}
  = ([Status 400; Respond (JsonError (lit "URL is required"))], Some tt).
Proof. apply info_rejects_empty_url. reflexivity. Defined.

(** X9. When the metadata fetch succeeds, [/api/info] calls the tool once,
    with the URL and the three fixed arguments, sets no status, and answers
    with the title, thumbnail, uploader and duration of the metadata as they
    are and with the MP3 entry followed by at most 8 video entries. *)
Theorem info_answer (tool : list jstring -> option metadata) (q : query)
        (u : jstring) (md : metadata) :
  q_url q = Some u -> u <> [] -> tool (info_args u) = Some md ->
  exists videos,
    api_info tool q
    = ([GetVideoInfo [u; lit "--user-agent"; USER_AGENT;
                      lit "--no-check-certificates"];
        Respond (JsonInfo (title md) (thumbnail md) (uploader md)
                          (duration_string md) (mp3_option :: videos))],
       Some tt)
    /\ (length videos <= 8)%nat
    /\ videos = video_list (default [] (formats md)).
Proof.
  intros Hu Hne Htool. exists (video_list (default [] (formats md))).
  split; [|split; [apply video_list_length | reflexivity]].
  rewrite (api_info_trace tool q u md Hu Hne Htool), select_formats_cons.
  reflexivity.
Qed.

(** The theorem on a video with nine formats. *)
Lemma info_answer_witness :
  exists videos,
    api_info (fun _ => Some (metadata_with formats_nine)) query_18
    = ([GetVideoInfo [lit "https://example.org/v"; lit "--user-agent";
                      USER_AGENT; lit "--no-check-certificates"];
        Respond (JsonInfo (VStr (lit "Foo: Bar/Baz!")) VNull VNull VNull
                          (mp3_option :: videos))],
       Some tt)
    /\ (length videos <= 8)%nat
    /\ videos = video_list (default [] (Some formats_nine)).
Proof.
  apply (info_answer (fun _ => Some (metadata_with formats_nine)) query_18
                     (lit "https://example.org/v")
                     (metadata_with formats_nine));
    [reflexivity | discriminate | reflexivity].
Defined.

(** X10. When the metadata fetch fails, [/api/info] logs the error and
    answers with status 500 and one generic message, whatever the cause. *)
Theorem info_fetch_failure (tool : list jstring -> option metadata) (q : query)
        (u : jstring) :
  q_url q = Some u -> u <> [] -> tool (info_args u) = None ->
  api_info tool q
  = ([GetVideoInfo (info_args u); ConsoleError (lit "Error fetching info:");
      Status 500;
      Respond (JsonError (lit "Failed to fetch video information."))],
     Some tt).
Proof. apply api_info_failure. Qed.

(** The theorem on a tool that always fails. *)
Lemma info_fetch_failure_witness :
  api_info (fun _ => None) query_18
  = ([GetVideoInfo (info_args (lit "https://example.org/v"));
      ConsoleError (lit "Error fetching info:"); Status 500;
      Respond (JsonError (lit "Failed to fetch video information."))],
     Some tt).
Proof.
  apply (info_fetch_failure (fun _ => None) query_18
                            (lit "https://example.org/v"));
    [reflexivity | discriminate | reflexivity].
Defined.

(** X11. Whatever the request and the tool do, [/api/info] sends exactly one
    answer, calls the tool at most once, never starts a stream, sets no
    header, and lets no error escape. *)
Theorem info_answers_once (tool : list jstring -> option metadata) (q : query) :
  snd (api_info tool q) = Some tt /\
  count is_respond (trace (api_info tool q)) = 1%nat /\
  (count is_tool_call (trace (api_info tool q)) <= 1)%nat /\
  count is_exec_stream (trace (api_info tool q)) = 0%nat /\
  count is_header (trace (api_info tool q)) = 0%nat.
Proof.
  destruct (q_url q) as [[|c u]|] eqn:Hu;
    try (rewrite api_info_no_url by (rewrite Hu; reflexivity);
         repeat split; solve [reflexivity | unfold count; simpl; lia]).
  destruct (tool (info_args (c :: u))) as [md|] eqn:Htool.
  - rewrite (api_info_trace tool q (c :: u) md Hu)
      by (discriminate || exact Htool).
    repeat split; solve [reflexivity | unfold count; simpl; lia].
  - rewrite (api_info_failure tool q (c :: u) Hu)
      by (discriminate || exact Htool).
    repeat split; solve [reflexivity | unfold count; simpl; lia].
Qed.

(** X12. A request to [/api/download] whose [url] parameter is missing or
    empty is answered with status 400 and a text message; the tool is not
    called and no header is set, whatever the format. *)
Theorem download_rejects_empty_url (tool : list jstring -> option metadata)
        (accepts : jstring -> value -> bool)
        (errs : list jstring -> list bool) (q : query) :
  param_truthy (q_url q) = false ->
  api_download tool accepts errs q
  = ([Status 400; Respond (Text (lit "URL is required"))], Some tt).
Proof. apply api_download_no_url. Qed.

(** The theorem on the request [/api/download?url=&format=mp3]. *)
Lemma download_rejects_empty_url_witness :
  api_download (fun _ => Some (metadata_with formats_nine))
               node_accepts early_error
               {| q_url := Some []; q_format := Some (lit "mp3") |}
  = ([Status 400; Respond (Text (lit "URL is required"))], Some tt).
Proof. apply download_rejects_empty_url. reflexivity. Defined.

(** X13. When the metadata fetch fails, or the metadata has no title that is
    a string, the download is answered with status 500 and one generic
    message; no header has been set and the tool is not asked to stream. *)
Theorem download_fails_before_headers
        (tool : list jstring -> option metadata)
        (accepts : jstring -> value -> bool)
        (errs : list jstring -> list bool) (q : query) (u : jstring) :
  q_url q = Some u -> u <> [] ->
  (tool (info_args u) = None \/
   exists md, tool (info_args u) = Some md /\ forall t, title md <> VStr t) ->
  api_download tool accepts errs q
  = ([ConsoleLog (lit "Preparing download for: " ++ u ++ lit " [Format: "
                  ++ param_or (q_format q) (lit "best") ++ lit "]");
      GetVideoInfo (info_args u);
      ConsoleError (lit "Preparation error:"); Status 500;
      Respond (Text (lit "Failed to prepare download"))],
     Some tt).
Proof. apply api_download_early. Qed.

(** The theorem on metadata whose title is [null]. *)
Lemma download_fails_before_headers_witness :
  api_download (fun _ => Some metadata_null_title) node_accepts early_error
               query_18
  = ([ConsoleLog (lit "Preparing download for: https://example.org/v [Format: 18]");
      GetVideoInfo (info_args (lit "https://example.org/v"));
      ConsoleError (lit "Preparation error:"); Status 500;
      Respond (Text (lit "Failed to prepare download"))],
     Some tt).
Proof.
  apply (download_fails_before_headers _ node_accepts early_error query_18
                                       (lit "https://example.org/v"));
    [reflexivity | discriminate |].
  right. eexists. split; [reflexivity | discriminate].
Defined.

(** X14. When the metadata has a title but no format list, and Node accepts
    the [Content-Disposition] value made of the title, the handler has
    already set that header when [find] throws: the answer is the status 500
    with the generic message, sent with that header, and nothing is
    streamed. *)
Theorem download_without_formats (tool : list jstring -> option metadata)
        (accepts : jstring -> value -> bool)
        (errs : list jstring -> list bool)
        (q : query) (u : jstring) (md : metadata) (t : jstring) :
  q_url q = Some u -> u <> [] ->
  tool (info_args u) = Some md -> title md = VStr t -> formats md = None ->
  accepts (lit "Content-Disposition")
          (disposition t (param_or (q_format q) (lit "best"))) = true ->
  api_download tool accepts errs q
  = ([ConsoleLog (lit "Preparing download for: " ++ u ++ lit " [Format: "
                  ++ param_or (q_format q) (lit "best") ++ lit "]");
      GetVideoInfo (info_args u);
      Header (lit "Content-Disposition")
        (VStr (lit "attachment; filename=" ++ dquote
               ++ filename_of t (bool_decide
                                   (param_or (q_format q) (lit "best")
                                    = lit "mp3"))
               ++ dquote));
      ConsoleError (lit "Preparation error:"); Status 500;
      Respond (Text (lit "Failed to prepare download"))],
     Some tt) /\
  header_set accepts (trace (api_download tool accepts errs q))
             (lit "Content-Disposition")
             (disposition t (param_or (q_format q) (lit "best"))).
Proof.
  intros Hu Hne Htool Ht Hfs Hcd.
  rewrite (api_download_run tool accepts errs q u md t Hu Hne Htool Ht).
  rewrite Hcd, Hfs. split; [reflexivity|].
  split; [|exact Hcd]. unfold trace. cbn [fst]. rewrite elem_of_app. left.
  do 2 right. left.
Qed.

(** The theorem on metadata without a [formats] property. *)
Lemma download_without_formats_witness :
  count is_header
    (trace (api_download (fun _ => Some metadata_no_formats) node_accepts
                         no_errors query_18))
  = 1%nat.
Proof.
  destruct (download_without_formats
              (fun _ => Some metadata_no_formats) node_accepts no_errors
              query_18 (lit "https://example.org/v")
              metadata_no_formats (lit "Clip")) as [-> _];
    [reflexivity | discriminate | reflexivity | reflexivity | reflexivity
     | reflexivity | reflexivity].
Defined.




(** X16. A missing and an empty [format] parameter are the format ['best']:
    the three requests are handled alike, log line included. *)
Theorem download_default_format (tool : list jstring -> option metadata)
        (accepts : jstring -> value -> bool)
        (errs : list jstring -> list bool)
        (url : option jstring) :
  api_download tool accepts errs {| q_url := url; q_format := None |}
  = api_download tool accepts errs
                 {| q_url := url; q_format := Some (lit "best") |} /\
  api_download tool accepts errs {| q_url := url; q_format := Some [] |}
  = api_download tool accepts errs
                 {| q_url := url; q_format := Some (lit "best") |}.
Proof. split; reflexivity. Qed.

(** X26. When Node rejects the [Content-Disposition] value made of the
    title, as it does for a title that keeps a code unit above 255, the
    download is answered with status 500 and the generic message: that
    header is not set, [res.header] is not called for [Content-Length], and
    the tool is not asked to stream. *)
Theorem download_header_rejected (tool : list jstring -> option metadata)
        (accepts : jstring -> value -> bool)
        (errs : list jstring -> list bool)
        (q : query) (u : jstring) (md : metadata) (t : jstring) :
  q_url q = Some u -> u <> [] ->
  tool (info_args u) = Some md -> title md = VStr t ->
  accepts (lit "Content-Disposition")
          (disposition t (param_or (q_format q) (lit "best"))) = false ->
  api_download tool accepts errs q
  = ([ConsoleLog (lit "Preparing download for: " ++ u ++ lit " [Format: "
                  ++ param_or (q_format q) (lit "best") ++ lit "]");
      GetVideoInfo (info_args u);
      Header (lit "Content-Disposition")
             (disposition t (param_or (q_format q) (lit "best")));
      ConsoleError (lit "Preparation error:"); Status 500;
      Respond (Text (lit "Failed to prepare download"))],
     Some tt) /\
  forall name v,
    ~ header_set accepts (trace (api_download tool accepts errs q)) name v.
Proof.
  intros Hu Hne Htool Ht Hcd.
  rewrite (api_download_run tool accepts errs q u md t Hu Hne Htool Ht).
  rewrite Hcd. split; [reflexivity|].
  intros name v [Hin Hacc]. unfold trace in Hin. cbn [fst app] in Hin.
  unfold preparation_failed in Hin.
  repeat (apply elem_of_cons in Hin as [Hin|Hin];
          [first [discriminate Hin
                 |injection Hin as -> ->; congruence]|]).
  inversion Hin.
Qed.

(** The theorem on a title with an ideographic space, which the file name
    keeps. *)
Lemma download_header_rejected_witness :
  count is_respond
    (trace (api_download (fun _ => Some metadata_wide_space) node_accepts
                         no_errors query_18)) = 1%nat /\
  count is_exec_stream
    (trace (api_download (fun _ => Some metadata_wide_space) node_accepts
                         no_errors query_18)) = 0%nat.
Proof.
  destruct (download_header_rejected
              (fun _ => Some metadata_wide_space) node_accepts no_errors
              query_18 (lit "https://example.org/v") metadata_wide_space
              [65; 12288; 66]%N) as [-> _];
    [reflexivity | discriminate | reflexivity | reflexivity | reflexivity|].
  split; reflexivity.
Defined.




(** X17. The stream call repeats the four arguments of the metadata call,
    then gives the fragment and buffer hints; it has 13 arguments for an MP3
    download and 10 otherwise, and the format identifier does not occur
    among the first eight. *)
Theorem download_args_extend_info_args (videoUrl formatId : jstring) :
  take 4 (download_args videoUrl formatId) = info_args videoUrl /\
  take 8 (download_args videoUrl formatId) = common_args videoUrl /\
  length (download_args videoUrl formatId)
  = (if bool_decide (formatId = lit "mp3") then 13 else 10)%nat.
Proof.
  unfold download_args. case_bool_decide; repeat split; reflexivity.
Qed.

(** ** The file name *)

Lemma extension_chars_safe (isMp3 : bool) :
  forallb safe_char (if isMp3 then lit "mp3" else lit "mp4") = true.
Proof. destruct isMp3; reflexivity. Qed.

Lemma filter_absent (x : N) (l : list N) :
  x ∉ l -> List.filter (fun c => (c =? x)%N) l = [].
Proof.
  induction l as [|c l IH]; simpl; [reflexivity|]. intros Hx.
  apply not_elem_of_cons in Hx as [Hne Hl].
  destruct (N.eqb_spec c x); [congruence | apply IH, Hl].
Qed.

Lemma quotes_of_header (name : list N) :
  34%N ∉ name ->
  length (List.filter (fun c => (c =? 34)%N)
            (lit "attachment; filename=" ++ dquote ++ name ++ dquote)) = 2%nat.
Proof.
  intros H. rewrite !List.filter_app, (filter_absent 34%N name H).
  reflexivity.
Qed.

(** X18. The file name of a download consists of word characters, white
    space, hyphens and dots only, whatever the title; so it contains no
    double quote, slash or backslash, and the [Content-Disposition] value
    has exactly the two double quotes that enclose the name. *)
Theorem filename_is_safe (t : jstring) (isMp3 : bool) :
  Forall (fun c => safe_char c = true \/ c = 46%N) (filename_of t isMp3) /\
  (34%N ∉ filename_of t isMp3) /\
  (47%N ∉ filename_of t isMp3) /\
  (92%N ∉ filename_of t isMp3) /\
  length (List.filter (fun c => (c =? 34)%N)
            (lit "attachment; filename=" ++ dquote ++ filename_of t isMp3
             ++ dquote)) = 2%nat.
Proof.
  assert (Hall : Forall (fun c => safe_char c = true \/ c = 46%N)
                        (filename_of t isMp3)).
  { rewrite filename_of_filter. rewrite !Forall_app. split; [|split].
    - apply Forall_forall. intros c Hc.
      apply list_elem_of_In, filter_In in Hc as [_ Hc]. auto.
    - constructor; [right; reflexivity | constructor].
    - pose proof (extension_chars_safe isMp3) as He.
      rewrite forallb_forall in He. apply Forall_forall. intros c Hc.
      left. apply He, list_elem_of_In, Hc. }
  assert (Hno : forall c, safe_char c = false -> c <> 46%N ->
                          c ∉ filename_of t isMp3).
  { intros c Hc Hdot Hin. rewrite Forall_forall in Hall.
    destruct (Hall c Hin) as [Hs|Hd]; congruence. }
  split; [exact Hall|].
  split; [apply Hno; [reflexivity | discriminate]|].
  split; [apply Hno; [reflexivity | discriminate]|].
  split; [apply Hno; [reflexivity | discriminate]|].
  apply quotes_of_header, Hno; [reflexivity | discriminate].
Qed.

(** X19. The file name is as long as the kept characters of the title and
    the four characters of the extension; a title without any word
    character, white space or hyphen, such as one written in Chinese or
    Japanese characters only, gives the bare extension. *)
Theorem filename_of_unsafe_title (t : jstring) (isMp3 : bool) :
  forallb unsafe_char t = true ->
  filename_of t isMp3 = (if isMp3 then lit ".mp3" else lit ".mp4").
Proof.
  intros Hall. rewrite filename_of_filter.
  assert (Hf : List.filter safe_char t = []).
  { induction t as [|c t IH]; simpl in *; [reflexivity|].
    apply andb_true_iff in Hall as [Hc Ht].
    unfold unsafe_char in Hc. apply negb_true_iff in Hc.
    unfold safe_char at 1. rewrite Hc. apply IH, Ht. }
  rewrite Hf. destruct isMp3; reflexivity.
Qed.

(** The theorem on a title of three Japanese characters. *)
Lemma filename_of_unsafe_title_witness :
  filename_of [26085; 26412; 35486]%N false = lit ".mp4".
Proof. apply filename_of_unsafe_title. reflexivity. Defined.

(** ** Start of the server *)

Section StartupFacts.
Import Startup.

Variable path_join : jstring -> jstring -> jstring.
Variable w : world.

#[local] Abbreviation the_path := (YTDLP_PATH path_join w).
#[local] Abbreviation init := (initYtDlp path_join w).

(** Decides the membership of an event in a trace that is written out. *)
Ltac in_trace H :=
  repeat (apply elem_of_cons in H as [H|H]; [try discriminate H|]);
  try (apply elem_of_nil in H; destruct H).

(** Evaluates the start-up code once the choices of the world are known. *)
Ltac run_init :=
  unfold start, app_listen, initYtDlp;
  cbn [and_then Startup.try_catch Startup.emit ok fail negb app fst snd].

(** X20. The binary is downloaded exactly when it is not on disk, and then
    to the path that was looked up. *)
Theorem downloads_only_when_missing (p : jstring) :
  DownloadFromGithub p ∈ fst init <->
  binary_exists w = false /\ p = the_path.
Proof.
  run_init.
  destruct (binary_exists w), (download_succeeds w), (IS_WINDOWS w),
    (chmod_succeeds w); run_init;
    (split;
     [intros H; in_trace H; injection H as ->; auto
     |intros [Hb ->];
      first [discriminate Hb | rewrite !elem_of_cons; auto 10]]).
Qed.

(** X21. The permissions are set exactly when the platform is not win32 and
    the binary is there (found, or downloaded without error), on the path
    that was looked up and with mode 755. *)
Theorem chmod_only_off_windows (p m : jstring) :
  ChmodSync p m ∈ fst init <->
  platform w <> lit "win32" /\
  (binary_exists w = true \/ download_succeeds w = true) /\
  p = the_path /\ m = lit "755".
Proof.
  assert (Hwin : IS_WINDOWS w = true <-> platform w = lit "win32")
    by apply bool_decide_eq_true.
  run_init.
  destruct (binary_exists w), (download_succeeds w), (IS_WINDOWS w),
    (chmod_succeeds w); run_init;
    (split;
     [intros H; in_trace H; injection H as -> ->;
      repeat split; auto; intros Hp; apply Hwin in Hp; discriminate
     |intros (Hp & Hb & -> & ->);
      first [destruct Hb; discriminate
            |exfalso; apply Hp, Hwin; reflexivity
            |rewrite !elem_of_cons; auto 10]]).
Qed.

(** X22. When the binary is on disk or its download succeeds, the server
    calls [app.listen], with the port of the environment or with 3000, right
    after the wrapper of the tool has been constructed and not before, also
    when setting the permissions fails.  The two lines about the server are
    logged when [app.listen] runs its callback, and only then; when
    [app.listen] throws, the error is logged as a failure to initialize
    yt-dlp. *)
Theorem listens_after_wrapper :
  binary_exists w || download_succeeds w = true ->
  exists pre,
    start path_join w
    = pre ++ NewYTDlpWrap the_path :: Listen (PORT w)
          :: match listen w with
             | CallsBack =>
                 [Log (lit "Server is running at http://localhost:"
                       ++ ToString (PORT w));
                  Log (lit "Redirect tool available at: http://localhost:"
                       ++ ToString (PORT w) ++ lit "/r")]
             | ListenThrows => [LogError (lit "Failed to initialize yt-dlp:")]
             | NoCallback => []
             end
    /\ Forall (fun e => forall port, e <> Listen port) pre.
Proof.
  run_init.
  destruct (binary_exists w), (download_succeeds w), (IS_WINDOWS w),
    (chmod_succeeds w), (listen w); run_init; intros Hb; try discriminate Hb;
    match goal with
    | |- exists pre, ?l = _ /\ _ =>
        first [exists (take 1 l); split; [reflexivity|]
              |exists (take 3 l); split; [reflexivity|]
              |exists (take 4 l); split; [reflexivity|]
              |exists (take 6 l); split; [reflexivity|]
              |exists (take 7 l); split; [reflexivity|]];
        repeat constructor; discriminate
    end.
Qed.

(** X23. When the binary is missing and its download fails, the failure is
    logged and that is all: no permissions are set, no wrapper is
    constructed and the server never listens. *)
Theorem no_server_without_binary :
  binary_exists w = false -> download_succeeds w = false ->
  start path_join w
  = [ExistsSync the_path;
     Log (lit "Downloading yt-dlp binary for " ++ platform w ++ lit "...");
     DownloadFromGithub the_path;
     LogError (lit "Failed to initialize yt-dlp:")].
Proof. run_init. intros -> ->. reflexivity. Qed.

(** X24. The look-up, the download, the permissions and the wrapper all use
    one path: [yt-dlp.exe] on win32 and [yt-dlp] elsewhere, joined to the
    directory of the program. *)
Theorem one_binary_path :
  Forall (fun e => forall p, path_of e = Some p ->
                             p = path_join (dirname w)
                                   (if bool_decide (platform w = lit "win32")
                                    then lit "yt-dlp.exe" else lit "yt-dlp"))
         (start path_join w).
Proof.
  run_init.
  destruct (binary_exists w), (download_succeeds w), (IS_WINDOWS w),
    (chmod_succeeds w), (listen w); run_init;
    repeat constructor; simpl; intros p [= <-]; reflexivity.
Qed.

End StartupFacts.

(** The theorem on a Linux host without the binary where [chmod] fails and
    the server comes up, and on one that has the binary and a port out of
    range, for which [app.listen] throws. *)
Lemma listens_after_wrapper_witness :
  (exists pre,
      Startup.start join_slash linux_fresh
      = pre ++ [Startup.NewYTDlpWrap (lit "/srv/app/yt-dlp");
                Startup.Listen (VNum 3000);
                Startup.Log (lit "Server is running at http://localhost:3000");
                Startup.Log
                  (lit "Redirect tool available at: http://localhost:3000/r")]
      /\ Forall (fun e => forall port, e <> Startup.Listen port) pre) /\
  (exists pre,
      Startup.start join_slash linux_bad_port
      = pre ++ [Startup.NewYTDlpWrap (lit "/srv/app/yt-dlp");
                Startup.Listen (VStr (lit "70000"));
                Startup.LogError (lit "Failed to initialize yt-dlp:")]
      /\ Forall (fun e => forall port, e <> Startup.Listen port) pre).
Proof.
  split.
  - apply (listens_after_wrapper join_slash linux_fresh). reflexivity.
  - apply (listens_after_wrapper join_slash linux_bad_port). reflexivity.
Defined.

(** The theorem on a Linux host without the binary and without network. *)
Lemma no_server_without_binary_witness :
  Startup.start join_slash linux_offline
  = [Startup.ExistsSync (lit "/srv/app/yt-dlp");
     Startup.Log (lit "Downloading yt-dlp binary for linux...");
     Startup.DownloadFromGithub (lit "/srv/app/yt-dlp");
     Startup.LogError (lit "Failed to initialize yt-dlp:")].
Proof.
  apply (no_server_without_binary join_slash linux_offline); reflexivity.
Defined.

(** ** The last middleware *)

Lemma starts_with_app (p s : jstring) : Limiter.starts_with p (p ++ s) = true.
Proof.
  induction p as [|c p IH]; simpl; [reflexivity|].
  rewrite N.eqb_refl. exact IH.
Qed.

Lemma starts_with_shorter (p q s : jstring) :
  Limiter.starts_with (p ++ q) s = true -> Limiter.starts_with p s = true.
Proof.
  revert s. induction p as [|c p IH]; intros s; simpl; [reflexivity|].
  destruct s as [|d s]; [discriminate|].
  rewrite !andb_true_iff. intros [Hc Hs]. split; [exact Hc | apply IH, Hs].
Qed.

(** X25. The last middleware passes on every URL that starts with [/api],
    the paths under [/api/] among them, and the URL [/r] itself; a URL that
    goes on after [/r], such as [/r/] or [/r?x=1], is not passed on when it
    gets here but answered with the page, like the root. *)
Theorem fallback_routes (index_html url s : jstring) :
  fallback index_html (lit "/api" ++ s) = CallNext /\
  fallback index_html (lit "/r") = CallNext /\
  fallback index_html (lit "/") = SendFile index_html /\
  (Limiter.starts_with (lit "/api/") url = true ->
   fallback index_html url = CallNext) /\
  (s <> [] -> fallback index_html (lit "/r" ++ s) = SendFile index_html).
Proof.
  split; [|split; [|split; [|split]]].
  - unfold fallback. rewrite starts_with_app. reflexivity.
  - reflexivity.
  - reflexivity.
  - intros H. unfold fallback.
    replace (Limiter.starts_with (lit "/api") url) with true; [reflexivity|].
    symmetry. exact (starts_with_shorter (lit "/api") (lit "/") url H).
  - intros Hs. unfold fallback.
    destruct s as [|c s]; [congruence|].
    rewrite bool_decide_false by (intros H; cbv in H; discriminate H).
    reflexivity.
Qed.

(** The theorem on the URLs [/api/info] and [/r?x=1]. *)
Lemma fallback_routes_witness :
  fallback (lit "/srv/app/public/index.html") (lit "/api/info") = CallNext /\
  fallback (lit "/srv/app/public/index.html") (lit "/r?x=1")
  = SendFile (lit "/srv/app/public/index.html").
Proof.
  split.
  - apply (fallback_routes (lit "/srv/app/public/index.html")
                           (lit "/api/info") []).
    reflexivity.
  - apply (fallback_routes (lit "/srv/app/public/index.html") []
                           (lit "?x=1")).
    discriminate.
Defined.
